(** * General Publish: a model of the publishing pipeline of [main.ts]

    The plugin selects the notes of a vault whose frontmatter carries
    [publish: true], mirrors them and the images they reference into a
    git working tree and commits the result.  This file embeds the
    publishing logic of [main.ts] and states its properties.

    Strings are sequences of code units restricted to the 8-bit range
    ([Stdlib]'s [string]); the literals the code tests for are all in
    that range. *)

From Stdlib Require Import Ascii String.
From stdpp Require Import base option list strings gmap pretty.

Local Open Scope string_scope.
Local Open Scope list_scope.

(** ** String primitives of the host language *)

Module Js.

(** U+000A, the only character the frontmatter pattern names. *)
Definition nl : string := String "010" EmptyString.

(** The double quote, for the messages that contain one. *)
Definition dq : string := String "034" EmptyString.

(** [strip_prefix p s] is [Some r] when [s] is [p] followed by [r]:
    a literal piece of a pattern matched at the current position. *)
Fixpoint strip_prefix (p s : string) : option string :=
  match p, s with
  | EmptyString, _ => Some s
  | String a p', String b s' =>
      if Ascii.eqb a b then strip_prefix p' s' else None
  | String _ _, EmptyString => None
  end.

(** [String.prototype.includes]. *)
Fixpoint includes (p s : string) : bool :=
  match strip_prefix p s with
  | Some _ => true
  | None =>
      match s with
      | EmptyString => false
      | String _ s' => includes p s'
      end
  end.

(** White space removed by [String.prototype.trim], in the 8-bit range:
    TAB, LF, VT, FF, CR, SP and NBSP. *)
Definition is_white (c : ascii) : bool :=
  let n := nat_of_ascii c in
  (Nat.leb 9 n && Nat.leb n 13) || Nat.eqb n 32 || Nat.eqb n 160.

Fixpoint all_white (s : string) : bool :=
  match s with
  | EmptyString => true
  | String c s' => is_white c && all_white s'
  end.

(** [!s.trim()]: the trimmed string is empty, that is, falsy. *)
Definition trim_is_empty (s : string) : bool := all_white s.

(** [s.split(sep)] for a one-character separator: the pieces between
    the separators, never an empty array. *)
Fixpoint split_go (sep : ascii) (cur s : string) : list string :=
  match s with
  | EmptyString => [cur]
  | String c s' =>
      if Ascii.eqb c sep then cur :: split_go sep EmptyString s'
      else split_go sep (cur +:+ String c EmptyString) s'
  end.

Definition split (sep : ascii) (s : string) : list string :=
  split_go sep EmptyString s.

(** [arr.pop()] on a fresh array: its last element. *)
Definition pop (l : list string) : string := default EmptyString (last l).

(** [arr.join(sep)]. *)
Fixpoint join (sep : string) (l : list string) : string :=
  match l with
  | [] => EmptyString
  | [x] => x
  | x :: r => x +:+ sep +:+ join sep r
  end.

(** The result of a successful match: the text before it, the matched
    text, its capture groups, and the text after it. *)
Record Match := mkMatch {
  m_before : string;
  m_matched : string;
  m_captures : list string;
  m_after : string
}.

Definition digit_of (c : ascii) : option nat :=
  let n := nat_of_ascii c in
  if Nat.leb 48 n && Nat.leb n 57 then Some (n - 48) else None.

(** The capture a [$n] reference stands for; the reference itself when
    the pattern has no such group. *)
Definition capture_ref (m : Match) (index : nat) (ref : string) : string :=
  if Nat.leb 1 index
  then default ref (m_captures m !! (index - 1))
  else ref.

(** GetSubstitution of ECMA-262 for a pattern without named groups: the
    replacement text of [String.prototype.replace] is a template in
    which [$$] stands for a dollar sign, [$&] for the matched text,
    [$`] and [$'] for the text before and after it, and [$n], [$nn]
    for a capture group. *)
Fixpoint getSubstitution (m : Match) (t : string) : string :=
  match t with
  | EmptyString => EmptyString
  | String c t1 =>
      if negb (Ascii.eqb c "$") then String c (getSubstitution m t1)
      else
        match t1 with
        | EmptyString => "$"
        | String c1 t2 =>
            if Ascii.eqb c1 "$" then "$" +:+ getSubstitution m t2
            else if Ascii.eqb c1 "&" then m_matched m +:+ getSubstitution m t2
            else if Ascii.eqb c1 "`" then m_before m +:+ getSubstitution m t2
            else if Ascii.eqb c1 "'" then m_after m +:+ getSubstitution m t2
            else
              match digit_of c1 with
              | None => String c (getSubstitution m t1)
              | Some d1 =>
                  let ncap := length (m_captures m) in
                  let one :=
                    capture_ref m d1 (String c (String c1 EmptyString))
                    +:+ getSubstitution m t2 in
                  match t2 with
                  | EmptyString => one
                  | String c2 t3 =>
                      match digit_of c2 with
                      | None => one
                      | Some d2 =>
                          let index := 10 * d1 + d2 in
                          if Nat.leb index ncap
                          then capture_ref m index
                                 (String c (String c1 (String c2 EmptyString)))
                               +:+ getSubstitution m t3
                          else one
                      end
                  end
              end
        end
  end.

(** The first occurrence of the literal [pat] in [s]. *)
Fixpoint find_literal (pat s : string) : option (string * string) :=
  match strip_prefix pat s with
  | Some r => Some (EmptyString, r)
  | None =>
      match s with
      | EmptyString => None
      | String c s' =>
          match find_literal pat s' with
          | Some (b, r) => Some (String c b, r)
          | None => None
          end
      end
  end.

(** [s.replace(pat, template)] with a string pattern: the first
    occurrence of [pat] is replaced by the expanded template. *)
Definition replace_string (pat template s : string) : string :=
  match find_literal pat s with
  | None => s
  | Some (b, r) =>
      b +:+ getSubstitution (mkMatch b pat [] r) template +:+ r
  end.

End Js.

(** ** The frontmatter pattern [/^---\n([\s\S]*?)\n---/] *)

Definition fm_open : string := "---" +:+ Js.nl.
Definition fm_close : string := Js.nl +:+ "---".

Import Js (Match, mkMatch, m_before, m_matched, m_captures, m_after).

(** [[\s\S]*?] followed by the literal [d]: the lazy quantifier tries the
    empty capture first and extends it one character at a time, so the
    capture ends at the first position where [d] follows.  Returns the
    capture and what follows [d]. *)
Definition lazy_until (d s : string) : option (string * string) :=
  Js.find_literal d s.

(** [content.match(/^---\n([\s\S]*?)\n---/)]: without the [m] flag [^]
    is the start of the text only. *)
Definition match_frontmatter (content : string) : option Match :=
  match Js.strip_prefix fm_open content with
  | None => None
  | Some r =>
      match lazy_until fm_close r with
      | None => None
      | Some (body, rest) =>
          Some (mkMatch EmptyString (fm_open +:+ body +:+ fm_close) [body] rest)
      end
  end.

Definition group1 (m : Match) : string :=
  match m_captures m with
  | g :: _ => g
  | [] => EmptyString
  end.

(** The decision of [shouldPublishFile] on the text it has read. *)
Definition shouldPublish (content : string) : bool :=
  match match_frontmatter content with
  | None => false
  | Some m =>
      Js.includes "publish: true" (group1 m)
      || Js.includes "publish:true" (group1 m)
  end.

(** [content.replace(/^---\n([\s\S]*?)\n---/, template)]: the pattern has
    no [g] flag, so its one match is replaced by the expanded template. *)
Definition replace_frontmatter (content template : string) : string :=
  match match_frontmatter content with
  | None => content
  | Some m => m_before m +:+ Js.getSubstitution m template +:+ m_after m
  end.

(** The text [addPublishFlag] hands to [vault.modify]. *)
Definition addPublishFlagText (content : string) : string :=
  match match_frontmatter content with
  | Some m =>
      let frontmatter := group1 m in
      let newFrontmatter := frontmatter +:+ Js.nl +:+ "publish: true" in
      replace_frontmatter content
        ("---" +:+ Js.nl +:+ newFrontmatter +:+ Js.nl +:+ "---")
  | None =>
      "---" +:+ Js.nl +:+ "publish: true" +:+ Js.nl +:+ "---"
      +:+ Js.nl +:+ Js.nl +:+ content
  end.

(** ** The image pattern [/!\[\[([^\]]+)\]\]|!\[.*?\]\(([^)]+)\)/g] *)

(** A greedy negated class [[^c]*]: the longest run of characters other
    than [c], and what follows it. *)
Fixpoint span_not (c : ascii) (s : string) : string * string :=
  match s with
  | EmptyString => (EmptyString, EmptyString)
  | String a s' =>
      if Ascii.eqb a c then (EmptyString, s)
      else let '(run, rest) := span_not c s' in (String a run, rest)
  end.

(** [([^c]+)] followed by the literal [close], which starts with [c]: the
    run cannot be shortened to make [close] match, so there is nothing to
    backtrack into. *)
Definition class_then (c : ascii) (close s : string) : option (string * string) :=
  let '(run, rest) := span_not c s in
  match run with
  | EmptyString => None
  | _ => rest' ← Js.strip_prefix close rest; Some (run, rest')
  end.

(** First alternative at the current position: [!\[\[([^\]]+)\]\]]. *)
Definition match_embed (s : string) : option (string * string) :=
  r ← Js.strip_prefix "![[" s; class_then "]" "]]" r.

(** The end of the second alternative: [\]\(([^)]+)\)]. *)
Definition match_target (s : string) : option (string * string) :=
  r ← Js.strip_prefix "](" s; class_then ")" ")" r.

(** [.] matches anything but a line terminator. *)
Definition is_line_terminator (c : ascii) : bool :=
  Ascii.eqb c "010" || Ascii.eqb c "013".

(** [.*?] followed by the end of the second alternative: the lazy
    quantifier extends over one more character, never a line terminator,
    as long as the rest does not match. *)
Fixpoint lazy_dot_then_target (s : string) : option (string * string) :=
  match match_target s with
  | Some x => Some x
  | None =>
      match s with
      | EmptyString => None
      | String c s' =>
          if is_line_terminator c then None else lazy_dot_then_target s'
      end
  end.

(** Second alternative at the current position: [!\[.*?\]\(([^)]+)\)]. *)
Definition match_image (s : string) : option (string * string) :=
  r ← Js.strip_prefix "![" s; lazy_dot_then_target r.

(** The pattern at the current position; [match[1] || match[2]] is the
    capture of the alternative that matched, together with the text after
    the match. *)
Definition match_ref_here (s : string) : option (string * string) :=
  match match_embed s with
  | Some x => Some x
  | None => match_image s
  end.

(** The [while ((match = imageRegex.exec(content)) !== null)] loop: each
    search resumes where the previous match ended.  [fuel] bounds the
    number of positions visited. *)
Fixpoint imageNames_from (fuel : nat) (s : string) : list string :=
  match fuel with
  | O => []
  | S fuel' =>
      match match_ref_here s with
      | Some (imageName, rest) => imageName :: imageNames_from fuel' rest
      | None =>
          match s with
          | EmptyString => []
          | String _ s' => imageNames_from fuel' s'
          end
      end
  end.

Definition imageNames (content : string) : list string :=
  imageNames_from (S (String.length content)) content.

(** ** The vault *)

(** The fields of [TFile] the plugin reads. *)
Record TFile := mkTFile {
  path : string;
  name : string;
  extension : string
}.

Global Instance TFile_eq_dec : EqDecision TFile.
Proof. solve_decision. Defined.

(** What the vault holds at a path: a file with its content, or a
    folder. *)
Inductive Entry :=
| EFile (f : TFile) (content : string)
| EFolder (p : string).

Definition entry_path (e : Entry) : string :=
  match e with
  | EFile f _ => path f
  | EFolder p => p
  end.

(** The vault in its enumeration order. *)
Definition Vault := list Entry.

Definition getAbstractFileByPath (v : Vault) (p : string) : option Entry :=
  find (λ e, bool_decide (entry_path e = p)) v.

Definition getFiles (v : Vault) : list TFile :=
  omap (λ e, match e with EFile f _ => Some f | EFolder _ => None end) v.

Definition getMarkdownFiles (v : Vault) : list TFile :=
  filter (λ f, extension f = "md") (getFiles v).

(** [vault.read] and [vault.readBinary]: the content stored at the path
    of the file, [None] when the vault has no file there. *)
Definition vault_read (v : Vault) (f : TFile) : option string :=
  match getAbstractFileByPath v (path f) with
  | Some (EFile _ c) => Some c
  | _ => None
  end.

(** [vault.modify]. *)
Definition vault_modify (v : Vault) (f : TFile) (c : string) : Vault :=
  (λ e, match e with
        | EFile g old => if bool_decide (path g = path f) then EFile g c else e
        | EFolder _ => e
        end) <$> v.

(** Paths are the keys of the vault: no two entries share one. *)
Definition vault_wf (v : Vault) : Prop := NoDup (entry_path <$> v).

(** ** Resolution of an image name *)

(** The predicate handed to [allFiles.find]. *)
Definition name_matches (imageName : string) (file : TFile) : bool :=
  bool_decide (name file = imageName)
  || bool_decide (name file = Js.pop (Js.split "/" imageName))
  || bool_decide (path file = imageName).

(** The file [copyReferencedAssets] settles on for one image name. *)
Definition resolveImage (v : Vault) (imageName : string) : option TFile :=
  match getAbstractFileByPath v imageName with
  | Some (EFile directFile _) => Some directFile
  | _ => find (name_matches imageName) (getFiles v)
  end.

(** The resolution order in the words of the specification: the known
    path equal to the name, then a file whose path is the name, then the
    first file whose filename is the name or its final segment. *)
Definition resolve_by_priority (v : Vault) (imageName : string) : option TFile :=
  match getAbstractFileByPath v imageName with
  | Some (EFile f _) => Some f
  | _ =>
      match find (λ f, bool_decide (path f = imageName)) (getFiles v) with
      | Some f => Some f
      | None =>
          find (λ f, bool_decide (name f = imageName)
                     || bool_decide (name f = Js.pop (Js.split "/" imageName)))
               (getFiles v)
      end
  end.

(** ** Settings and the [path] module *)

Record GeneralPublishSettings := mkSettings {
  gitRepoPath : string;
  publishFolder : string;
  assetsFolder : string;
  commitMessage : string;
  autoCommit : bool
}.

Definition DEFAULT_SETTINGS : GeneralPublishSettings :=
  mkSettings "" "content" "assets" "Update published notes - {timestamp}" true.

(** The two functions of the platform's [path] module the plugin calls. *)
Class PathModule := {
  isAbsolute : string → bool;
  resolve : string → string → string
}.

(** The POSIX flavour: a path is absolute when it starts with a slash;
    [resolve] joins its arguments from the right until the result is
    absolute, falls back on the working directory, and normalises away
    empty segments, [.] and [..]. *)
Definition posix_isAbsolute (p : string) : bool :=
  match p with
  | String c _ => Ascii.eqb c "/"
  | EmptyString => false
  end.

Fixpoint normalize_segments (stack segs : list string) : list string :=
  match segs with
  | [] => rev stack
  | seg :: segs' =>
      if bool_decide (seg = "") || bool_decide (seg = ".")
      then normalize_segments stack segs'
      else if bool_decide (seg = "..")
      then normalize_segments (tail stack) segs'
      else normalize_segments (seg :: stack) segs'
  end.

Definition posix_resolve (cwd a b : string) : string :=
  let joined :=
    if posix_isAbsolute b then b
    else if posix_isAbsolute a then a +:+ "/" +:+ b
    else cwd +:+ "/" +:+ a +:+ "/" +:+ b in
  "/" +:+ Js.join "/" (normalize_segments [] (Js.split "/" joined)).

Definition posix (cwd : string) : PathModule :=
  {| isAbsolute := posix_isAbsolute; resolve := posix_resolve cwd |}.

(** ** The world the plugin runs in *)

(** The target tree: the files with their content, and the directories
    that were created. *)
Record Disk := mkDisk {
  files : gmap string string;
  dirs : gset string
}.

Inductive FsOp :=
| OpMkdir (p : string)
| OpWriteFile (p data : string).

(** What a run leaves behind, in order: the calls it made to its
    collaborators. *)
Inductive Event :=
| Notice (msg : string)
| ConsoleError (msg err : string)
| ConsoleWarn (msg : string)
| FsMkdir (p : string)
| FsWriteFile (p data : string)
| Exec (cmd : string)
| VaultModify (p data : string).

Global Instance Event_eq_dec : EqDecision Event.
Proof. solve_decision. Defined.

(** The collaborators outside the plugin, over a state [X] of their own:
    the file system accepts or rejects an operation ([Some msg] is the
    rejection), the shell runs a command against the target tree and
    resolves with its standard output or rejects with an error message,
    and the clock renders the current instant.  The commands the plugin
    runs ([git status], [git add], [git commit]) leave the files of the
    working tree as they are, so [h_exec] reads the disk only. *)
Record Host (X : Type) := mkHost {
  h_fs : FsOp → X → option string * X;
  h_exec : string → Disk → X → (string + string) * X;
  h_now : X → string
}.
Arguments h_fs {X}.
Arguments h_exec {X}.
Arguments h_now {X}.

Record World (X : Type) := mkWorld {
  vault : Vault;
  disk : Disk;
  ext : X;
  trace : list Event
}.
Arguments mkWorld {X}.
Arguments vault {X}.
Arguments disk {X}.
Arguments ext {X}.
Arguments trace {X}.

(** An awaited call resolves with a value or rejects with an [Error],
    kept as its message. *)
Inductive Outcome (A : Type) :=
| Ok (a : A)
| Throw (message : string).
Arguments Ok {A}.
Arguments Throw {A}.

Definition M (X A : Type) : Type := World X → Outcome A * World X.

Global Instance M_ret {X} : MRet (M X) := λ A a w, (Ok a, w).

Global Instance M_bind {X} : MBind (M X) := λ A B k c w,
  match c w with
  | (Ok a, w') => k a w'
  | (Throw e, w') => (Throw e, w')
  end.

Definition throw {X A} (message : string) : M X A := λ w, (Throw message, w).

(** [try { body } catch (error) { handler }]. *)
Definition try_catch {X A} (body : M X A) (handler : string → M X A) : M X A :=
  λ w, match body w with
       | (Ok a, w') => (Ok a, w')
       | (Throw e, w') => handler e w'
       end.

Definition emit {X} (e : Event) : M X unit := λ w,
  (Ok (), mkWorld (vault w) (disk w) (ext w) (trace w ++ [e])%list).

(** [for (const x of l) { await f(x) }]. *)
Fixpoint forEach {X A} (f : A → M X unit) (l : list A) : M X unit :=
  match l with
  | [] => mret ()
  | x :: l' => f x ;; forEach f l'
  end.

(** ** The plugin *)

Section Plugin.
Context {X : Type} (host : Host X) {P : PathModule}.
Context (settings : GeneralPublishSettings).

Definition notice (msg : string) : M X unit := emit (Notice msg).

(** [this.app.vault.read(file)]: rejects when the vault holds no file at
    the path. *)
Definition read (file : TFile) : M X string := λ w,
  match vault_read (vault w) file with
  | Some c => (Ok c, w)
  | None => (Throw ("File not found: " +:+ path file), w)
  end.

(** [this.app.vault.readBinary(file)]. *)
Definition readBinary (file : TFile) : M X string := read file.

(** [this.app.vault.modify(file, data)]. *)
Definition modify (file : TFile) (data : string) : M X unit := λ w,
  (Ok (), mkWorld (vault_modify (vault w) file data) (disk w) (ext w)
                  (trace w ++ [VaultModify (path file) data])%list).

(** [fs.promises.mkdir(dir, { recursive: true })]: an existing
    directory is not an error. *)
Definition mkdir (dir : string) : M X unit := λ w,
  let tr := (trace w ++ [FsMkdir dir])%list in
  match h_fs host (OpMkdir dir) (ext w) with
  | (Some e, x) => (Throw e, mkWorld (vault w) (disk w) x tr)
  | (None, x) =>
      (Ok (), mkWorld (vault w)
                (mkDisk (files (disk w)) ({[dir]} ∪ dirs (disk w))) x tr)
  end.

(** [fs.promises.writeFile(file, data)]: an existing file is
    overwritten. *)
Definition writeFile (file data : string) : M X unit := λ w,
  let tr := (trace w ++ [FsWriteFile file data])%list in
  match h_fs host (OpWriteFile file data) (ext w) with
  | (Some e, x) => (Throw e, mkWorld (vault w) (disk w) x tr)
  | (None, x) =>
      (Ok (), mkWorld (vault w)
                (mkDisk (<[file := data]> (files (disk w))) (dirs (disk w)))
                x tr)
  end.

(** [execAsync(command)], resolving with the standard output. *)
Definition execAsync (command : string) : M X string := λ w,
  let tr := (trace w ++ [Exec command])%list in
  match h_exec host command (disk w) (ext w) with
  | (inl stdout, x) => (Ok stdout, mkWorld (vault w) (disk w) x tr)
  | (inr e, x) => (Throw e, mkWorld (vault w) (disk w) x tr)
  end.

(** [new Date().toISOString()]. *)
Definition toISOString : M X string := λ w, (Ok (h_now host (ext w)), w).

Definition shouldPublishFile (file : TFile) : M X bool :=
  content ← read file;
  mret (shouldPublish content).

Fixpoint collectPublishable (fs : list TFile) : M X (list TFile) :=
  match fs with
  | [] => mret ([] : list TFile)
  | file :: fs' =>
      b ← shouldPublishFile file;
      rest ← collectPublishable fs';
      mret (if (b : bool) then file :: rest else rest)
  end.

Definition getPublishableFiles : M X (list TFile) := λ w,
  collectPublishable (getMarkdownFiles (vault w)) w.

Definition processContent (content : string) (file : TFile) : M X string :=
  mret content.

Definition assetsDir : string :=
  resolve (gitRepoPath settings) (assetsFolder settings).

Definition assetTarget (assetFile : TFile) : string :=
  resolve assetsDir (name assetFile).

Definition copyAssetToRepo (assetFile : TFile) : M X unit :=
  buffer ← readBinary assetFile;
  mkdir assetsDir;;
  writeFile (assetTarget assetFile) buffer.

(** One turn of the loop of [copyReferencedAssets]. *)
Definition copyReferencedAsset (imageName : string) : M X unit := λ w,
  if bool_decide (imageName = "") then (Ok (), w)
  else
    match resolveImage (vault w) imageName with
    | Some imageFile =>
        try_catch (copyAssetToRepo imageFile)
          (λ error,
             emit (ConsoleError
                     ("Failed to copy asset " +:+ imageName +:+ ":") error))
          w
    | None => emit (ConsoleWarn ("Asset not found: " +:+ imageName)) w
    end.

Definition copyReferencedAssets (content : string) (sourceFile : TFile) : M X unit :=
  forEach copyReferencedAsset (imageNames content).

Definition publishDir : string :=
  resolve (gitRepoPath settings) (publishFolder settings).

Definition docTarget (file : TFile) : string :=
  resolve publishDir (name file).

Definition copyFileToRepo (file : TFile) : M X unit :=
  content ← read file;
  processedContent ← processContent content file;
  if negb (isAbsolute (gitRepoPath settings))
  then throw "Git repository path must be an absolute path"
  else
    mkdir publishDir;;
    writeFile (docTarget file) processedContent;;
    copyReferencedAssets content file.

Definition statusCommand : string :=
  "cd " +:+ Js.dq +:+ gitRepoPath settings +:+ Js.dq
  +:+ " && git status --porcelain".

Definition gitCommands (message : string) : string :=
  Js.join " && "
    [ "cd " +:+ Js.dq +:+ gitRepoPath settings +:+ Js.dq;
      "git add .";
      "git commit -m " +:+ Js.dq +:+ message +:+ Js.dq ].

(** [true] when a commit was made, [false] when there was nothing to
    commit; a rejection is the failure of the commit step. *)
Definition commitChanges : M X bool :=
  try_catch
    (statusOutput ← execAsync statusCommand;
     if Js.trim_is_empty statusOutput then mret false
     else
       timestamp ← toISOString;
       let message :=
         Js.replace_string "{timestamp}" timestamp (commitMessage settings) in
       execAsync (gitCommands message);;
       mret true)
    (λ error,
       if negb (Js.includes "nothing to commit" error)
          && negb (Js.includes "working tree clean" error)
       then throw error
       else mret false).

Definition publishedNotice (n : nat) : string :=
  "Successfully published " +:+ pretty n +:+ " notes".

Definition copiedNotice (n : nat) : string :=
  "Copied " +:+ pretty n +:+ " notes (no changes to commit)".

Definition publishAllNotes : M X unit :=
  if bool_decide (gitRepoPath settings = "")
  then notice "Please configure git repository path in settings"
  else
    try_catch
      (publishableFiles ← getPublishableFiles;
       if bool_decide (length (publishableFiles : list TFile) = 0)
       then notice ("No files found with " +:+ Js.dq +:+ "publish: true"
                    +:+ Js.dq +:+ " frontmatter")
       else
         notice ("Publishing " +:+ pretty (length publishableFiles)
                 +:+ " notes...");;
         forEach copyFileToRepo publishableFiles;;
         commitResult ← (if autoCommit settings then commitChanges
                         else mret false);
         if commitResult || negb (autoCommit settings)
         then notice (publishedNotice (length publishableFiles))
         else notice (copiedNotice (length publishableFiles)))
      (λ error,
         notice ("Error publishing notes: " +:+ error);;
         emit (ConsoleError "Publish error:" error)).

Definition addPublishFlag (file : TFile) : M X unit :=
  content ← read file;
  modify file (addPublishFlagText content).

(** [activeFile] is what [getActiveFile] returns and [confirmed] the
    answer the confirmation dialog resolves with when it is opened: [true]
    for its publish button, [false] for its cancel button.  A dialog that
    is closed without a button never answers, and the command then stays
    pending at the [await]; such a run has no counterpart here, so what
    is stated of [publishCurrentNote] is stated for a dialog that has
    answered. *)
Definition publishCurrentNote (activeFile : option TFile) (confirmed : bool) : M X unit :=
  match activeFile with
  | None => notice "No active file"
  | Some activeFile =>
      if bool_decide (gitRepoPath settings = "")
      then notice "Please configure git repository path in settings"
      else
        try_catch
          (shouldPublish ← shouldPublishFile activeFile;
           proceed ←
             (if negb shouldPublish then
                if confirmed then
                  addPublishFlag activeFile;;
                  notice ("Added " +:+ Js.dq +:+ "publish: true" +:+ Js.dq
                          +:+ " to frontmatter");;
                  mret true
                else mret false
              else mret true);
           if negb proceed then mret ()
           else
             copyFileToRepo activeFile;;
             commitResult ← (if autoCommit settings then commitChanges
                             else mret false);
             if commitResult || negb (autoCommit settings)
             then notice "Successfully published current note"
             else mret ())
          (λ error,
             notice ("Error publishing note: " +:+ error);;
             emit (ConsoleError "Publish error:" error))
  end.

End Plugin.

(** ** Concrete collaborators and vaults *)

Module Sample.

Definition stamp : string := "2024-05-01T10:00:00.000Z".

(** A git working tree whose state is the committed snapshot: a command
    that stages is a commit, which records the files or rejects when
    there is nothing to record; any other command is the status query,
    which prints nothing when the files equal the snapshot.  The file
    system accepts every operation. *)
Definition git_host : Host (gmap string string) :=
  {| h_fs := λ _ head, (None, head);
     h_exec := λ cmd d head,
       if negb (Js.includes "git add ." cmd)
       then (inl (if bool_decide (files d = head) then ""
                  else "?? content/" +:+ Js.nl), head)
       else if bool_decide (files d = head)
       then (inr ("Command failed: " +:+ cmd +:+ Js.nl
                  +:+ "nothing to commit, working tree clean"), head)
       else (inl "1 file changed", files d);
     h_now := λ _, stamp |}.

(** A file system that rejects every write to [bad]; the shell accepts
    every command and prints [out]. *)
Definition readonly_host (bad out : string) : Host unit :=
  {| h_fs := λ op x,
       match op with
       | OpWriteFile p _ =>
           if bool_decide (p = bad)
           then (Some ("EACCES: permission denied, open " +:+ p), x)
           else (None, x)
       | OpMkdir _ => (None, x)
       end;
     h_exec := λ _ _ x, (inl out, x);
     h_now := λ _, stamp |}.

(** A shell in which [git commit] is rejected with [message]. *)
Definition rejecting_host (message : string) : Host unit :=
  {| h_fs := λ _ x, (None, x);
     h_exec := λ cmd _ x,
       if Js.includes "git commit" cmd then (inr message, x)
       else (inl (" M content/a.md" +:+ Js.nl), x);
     h_now := λ _, stamp |}.

Definition settings : GeneralPublishSettings :=
  mkSettings "/srv/site" "content" "assets"
             "Update published notes - {timestamp}" true.

Definition text (lines : list string) : string := Js.join Js.nl lines.

Definition a_md : TFile := mkTFile "notes/a.md" "a.md" "md".
Definition b_md : TFile := mkTFile "notes/b.md" "b.md" "md".
Definition draft_md : TFile := mkTFile "draft.md" "draft.md" "md".
Definition other_a_md : TFile := mkTFile "archive/a.md" "a.md" "md".
Definition pic1 : TFile := mkTFile "img/diagram.png" "diagram.png" "png".
Definition pic2 : TFile := mkTFile "old/diagram.png" "diagram.png" "png".

Definition a_text : string :=
  text ["---"; "title: A"; "publish: true"; "---"; "![[diagram.png]]"; ""].
Definition b_text : string :=
  text ["---"; "publish:true"; "---"; "![plan](old/diagram.png) ![[gone.png]]"].
Definition draft_text : string := text ["# Draft"; "nothing here"].
Definition other_a_text : string :=
  text ["---"; "publish: true"; "---"; "older"].

Definition corpus : Vault :=
  [ EFolder "notes"; EFile a_md a_text; EFile b_md b_text;
    EFile draft_md draft_text; EFolder "img"; EFile pic1 "PNG-1";
    EFolder "old"; EFile pic2 "PNG-2" ].

Definition drafts_only : Vault := [ EFile draft_md draft_text ].

Definition twins : Vault :=
  [ EFile a_md a_text; EFile other_a_md other_a_text;
    EFile pic1 "PNG-1" ].

Definition empty_disk : Disk := mkDisk ∅ ∅.

Definition start {X} (v : Vault) (x : X) : World X :=
  mkWorld v empty_disk x [].

End Sample.

(** ** Notions the statements are phrased in *)

(** [p] occurs in [s]. *)
Definition occurs_in (p s : string) : Prop := ∃ a b, s = a +:+ p +:+ b.

(** [body] is what the frontmatter pattern captures in [content]: the
    text between the opening [---] line and the first later occurrence
    of a line break followed by [---]. *)
Definition captured_frontmatter (content body : string) : Prop :=
  (∃ rest, content = fm_open +:+ body +:+ fm_close +:+ rest)
  ∧ ∀ body' rest', content = fm_open +:+ body' +:+ fm_close +:+ rest' →
      (String.length body ≤ String.length body')%nat.

(** The frontmatter block read line by line, in the words of the
    specification: the first line is exactly three hyphens, and the body
    is the lines up to the next line that is exactly three hyphens. *)
Fixpoint lines_until_delimiter (ls : list string) : option (list string) :=
  match ls with
  | [] => None
  | l :: ls' =>
      if bool_decide (l = "---") then Some []
      else (λ body, l :: body) <$> lines_until_delimiter ls'
  end.

Definition frontmatter_by_lines (content : string) : option string :=
  match Js.split "010" content with
  | first :: rest =>
      if bool_decide (first = "---")
      then Js.join Js.nl <$> lines_until_delimiter rest
      else None
  | [] => None
  end.

Definition publishable_by_lines (content : string) : bool :=
  match frontmatter_by_lines content with
  | Some body =>
      Js.includes "publish: true" body || Js.includes "publish:true" body
  | None => false
  end.

(** [c] occurs in [s]. *)
Fixpoint has_char (c : ascii) (s : string) : bool :=
  match s with
  | EmptyString => false
  | String a s' => Ascii.eqb a c || has_char c s'
  end.


(** The kinds of events. *)
Definition is_report (e : Event) : bool :=
  match e with
  | Notice _ | ConsoleError _ _ | ConsoleWarn _ => true
  | _ => false
  end.

Definition is_fs (e : Event) : bool :=
  match e with
  | FsMkdir _ | FsWriteFile _ _ => true
  | _ => false
  end.

Definition is_exec (e : Event) : bool :=
  match e with
  | Exec _ => true
  | _ => false
  end.

(** The commands a run handed to the shell, in order. *)
Definition exec_calls (evs : list Event) : list string :=
  omap (λ e, match e with Exec cmd => Some cmd | _ => None end) evs.

(** What an accepted file system call does to the target tree. *)
Definition apply_fs (d : Disk) (e : Event) : Disk :=
  match e with
  | FsMkdir dir => mkDisk (files d) ({[dir]} ∪ dirs d)
  | FsWriteFile p data => mkDisk (<[p := data]> (files d)) (dirs d)
  | _ => d
  end.

(** The target tree changes through the recorded calls only: each call
    was either accepted, with the effect of [apply_fs], or rejected,
    without any. *)
Inductive disk_steps : list Event → Disk → Disk → Prop :=
| disk_steps_nil d : disk_steps [] d d
| disk_steps_accepted e evs d d' :
    disk_steps evs (apply_fs d e) d' → disk_steps (e :: evs) d d'
| disk_steps_rejected e evs d d' :
    disk_steps evs d d' → disk_steps (e :: evs) d d'.

(** From [w] to [w'] the vault is the same, the trace grew by events that
    satisfy [Q], and the target tree followed them. *)
Definition runs {X} (Q : Event → Prop) (w w' : World X) : Prop :=
  vault w' = vault w
  ∧ ∃ evs, trace w' = trace w ++ evs
           ∧ Forall Q evs
           ∧ disk_steps evs (disk w) (disk w').

(** Every run of [c] that starts with the vault [v] is one of [runs]. *)
Definition emits {X A} (v : Vault) (Q : Event → Prop) (c : M X A) : Prop :=
  ∀ w, vault w = v → runs Q w (c w).2.

(** A notice or an event that tells of a configuration error. *)
Definition is_configuration_error (e : Event) : bool :=
  match e with
  | Notice msg =>
      Js.includes "Git repository path must be an absolute path" msg
      || bool_decide (msg = "Please configure git repository path in settings")
  | _ => false
  end.

(** The outcomes of the commit step. *)
Inductive CommitOutcome :=
| Committed
| NoChanges
| Failed (message : string).

Definition commit_outcome (r : Outcome bool) : CommitOutcome :=
  match r with
  | Ok true => Committed
  | Ok false => NoChanges
  | Throw e => Failed e
  end.

(** An error message [commitChanges] takes for an empty commit. *)
Definition benign (message : string) : bool :=
  Js.includes "nothing to commit" message
  || Js.includes "working tree clean" message.

(** The world [w] with [evs] added to its trace. *)
Definition logged {X} (evs : list Event) (w : World X) : World X :=
  mkWorld (vault w) (disk w) (ext w) (trace w ++ evs).

(** The world after the shell was handed [cmds] and ended in state [x]. *)
Definition after_exec {X} (w : World X) (cmds : list string) (x : X) : World X :=
  mkWorld (vault w) (disk w) x (trace w ++ (Exec <$> cmds)).

(** The commit message for the instant the clock shows in state [x]. *)
Definition message_at {X} (host : Host X) (settings : GeneralPublishSettings)
    (x : X) : string :=
  Js.replace_string "{timestamp}" (h_now host x) (commitMessage settings).

(** What the handler of [publishAllNotes] reports for the error [e]. *)
Definition batch_error (e : string) : list Event :=
  [Notice ("Error publishing notes: " +:+ e); ConsoleError "Publish error:" e].

Definition no_files_notice : string :=
  "No files found with " +:+ Js.dq +:+ "publish: true" +:+ Js.dq
  +:+ " frontmatter".

Definition publishing_notice (n : nat) : string :=
  "Publishing " +:+ pretty n +:+ " notes...".

Definition absolute_path_error : string :=
  "Git repository path must be an absolute path".

(** The world [w] after the file system accepted the calls of [evs]. *)
Definition mirrored {X} (evs : list Event) (w : World X) : World X :=
  mkWorld (vault w) (foldl apply_fs (disk w) evs) (ext w) (trace w ++ evs).

(** The file system accepts every call and keeps no state of its own. *)
Definition fs_accepts {X} (host : Host X) : Prop :=
  ∀ op x, h_fs host op x = (None, x).

(** The status query prints nothing but white space. *)
Definition status_blank {X} (host : Host X) (settings : GeneralPublishSettings)
    (d : Disk) (x : X) : bool :=
  match h_exec host (statusCommand settings) d x with
  | (inl out, _) => Js.trim_is_empty out
  | (inr _, _) => false
  end.

(** The shell behaves like git on a healthy repository: the status query
    succeeds and changes nothing, and where it reports a change the
    staging and committing command succeeds and leaves a state in which
    the status of the same tree is blank. *)
Definition git_like {X} (host : Host X) (settings : GeneralPublishSettings) : Prop :=
  (∀ d x, ∃ out, h_exec host (statusCommand settings) d x = (inl out, x))
  ∧ (∀ message d x,
       status_blank host settings d x = false →
       ∃ out x', h_exec host (gitCommands settings message) d x = (inl out, x')
                 ∧ status_blank host settings d x' = true).

(** The calls one image name leads to when nothing is rejected. *)
Definition asset_events {P : PathModule} (settings : GeneralPublishSettings)
    (v : Vault) (imageName : string) : list Event :=
  if bool_decide (imageName = "") then []
  else
    match resolveImage v imageName with
    | Some a =>
        match vault_read v a with
        | Some bytes => [FsMkdir (assetsDir settings);
                         FsWriteFile (assetTarget settings a) bytes]
        | None => [ConsoleError ("Failed to copy asset " +:+ imageName +:+ ":")
                                ("File not found: " +:+ path a)]
        end
    | None => [ConsoleWarn ("Asset not found: " +:+ imageName)]
    end.

(** The calls mirroring one note leads to when nothing is rejected. *)
Definition file_events {P : PathModule} (settings : GeneralPublishSettings)
    (v : Vault) (file : TFile) : list Event :=
  match vault_read v file with
  | Some text =>
      [FsMkdir (publishDir settings);
       FsWriteFile (docTarget settings file) text]
      ++ mjoin (asset_events settings v <$> imageNames text)
  | None => []
  end.

(** The data of the last write to [p] among [evs]. *)
Fixpoint last_write (p : string) (evs : list Event) : option string :=
  match evs with
  | [] => None
  | e :: evs' =>
      match last_write p evs' with
      | Some data => Some data
      | None =>
          match e with
          | FsWriteFile q data => if bool_decide (q = p) then Some data else None
          | _ => None
          end
      end
  end.

(** The directories [evs] create. *)
Definition made_dirs (evs : list Event) : gset string :=
  list_to_set (omap (λ e, match e with FsMkdir d => Some d | _ => None end) evs).

(** The notes [getPublishableFiles] selects among [fs], as a function of
    the vault. *)
Fixpoint select_publishable (v : Vault) (fs : list TFile) : Outcome (list TFile) :=
  match fs with
  | [] => Ok []
  | file :: fs' =>
      match vault_read v file with
      | None => Throw ("File not found: " +:+ path file)
      | Some content =>
          match select_publishable v fs' with
          | Ok rest => Ok (if shouldPublish content then file :: rest else rest)
          | Throw e => Throw e
          end
      end
  end.

(** The file system calls of a batch in which nothing is rejected. *)
Definition batch_plan {P : PathModule} (settings : GeneralPublishSettings)
    (v : Vault) : list Event :=
  if bool_decide (gitRepoPath settings = "") then []
  else
    match select_publishable v (getMarkdownFiles v) with
    | Ok publishableFiles =>
        if isAbsolute (gitRepoPath settings)
        then mjoin (file_events settings v <$> publishableFiles)
        else []
    | Throw _ => []
    end.

(** The batch gets as far as the commit step. *)
Definition reaches_commit {P : PathModule} (settings : GeneralPublishSettings)
    (v : Vault) : bool :=
  autoCommit settings
  && negb (bool_decide (gitRepoPath settings = ""))
  && isAbsolute (gitRepoPath settings)
  && match select_publishable v (getMarkdownFiles v) with
     | Ok (_ :: _) => true
     | _ => false
     end.

(** A write of [copyAssetToRepo a]: the bytes of [a], at the path its
    filename gives under the assets folder. *)
Definition asset_write {P : PathModule} (settings : GeneralPublishSettings)
    (v : Vault) (a : TFile) (e : Event) : Prop :=
  match e with
  | FsWriteFile p data => p = assetTarget settings a ∧ vault_read v a = Some data
  | Exec _ | VaultModify _ _ => False
  | _ => True
  end.

(** A write for the images of [content]: the bytes of a file that one of
    the image names resolves to. *)
Definition assets_write {P : PathModule} (settings : GeneralPublishSettings)
    (v : Vault) (content : string) (e : Event) : Prop :=
  match e with
  | FsWriteFile p data =>
      ∃ imageName a, imageName ∈ imageNames content
                     ∧ resolveImage v imageName = Some a
                     ∧ p = assetTarget settings a
                     ∧ vault_read v a = Some data
  | Exec _ | VaultModify _ _ => False
  | _ => True
  end.

(** A write of [copyFileToRepo file], where [file] holds [content]: the
    text of [file] at the path its filename gives under the publish
    folder, or the write of one of its images. *)
Definition mirror_write {P : PathModule} (settings : GeneralPublishSettings)
    (v : Vault) (file : TFile) (e : Event) : Prop :=
  match e with
  | FsWriteFile p data =>
      (p = docTarget settings file ∧ vault_read v file = Some data)
      ∨ ∃ content imageName a,
          vault_read v file = Some content
          ∧ imageName ∈ imageNames content
          ∧ resolveImage v imageName = Some a
          ∧ p = assetTarget settings a
          ∧ vault_read v a = Some data
  | Exec _ | VaultModify _ _ => False
  | _ => True
  end.

(** The settings with the auto-commit toggle set to [b]. *)
Definition with_autoCommit (b : bool) (s : GeneralPublishSettings) :=
  mkSettings (gitRepoPath s) (publishFolder s) (assetsFolder s)
             (commitMessage s) b.

(** The text the vault holds for [f] carries the flag. *)
Definition publishable_in (v : Vault) (f : TFile) : bool :=
  match vault_read v f with
  | Some content => shouldPublish content
  | None => false
  end.

(** An event of a batch over the vault [v]: never a change of the vault,
    and a write only for a markdown file that carries the flag, its text
    or one of its images. *)
Definition batch_event {P : PathModule} (settings : GeneralPublishSettings)
    (v : Vault) (e : Event) : Prop :=
  match e with
  | VaultModify _ _ => False
  | FsWriteFile _ _ =>
      ∃ f, f ∈ getMarkdownFiles v ∧ publishable_in v f = true
           ∧ mirror_write settings v f e
  | _ => True
  end.

(** An event that leaves the vault alone. *)
Definition keeps_vault (e : Event) : Prop :=
  match e with
  | VaultModify _ _ => False
  | _ => True
  end.

(** The notice that follows the flag mutation. *)
Definition added_notice : string :=
  "Added " +:+ Js.dq +:+ "publish: true" +:+ Js.dq +:+ " to frontmatter".

(** What [publishCurrentNote] does once the flag is settled: mirror the
    note, commit, and tell of the success. *)
Definition mirrorAndCommit {X} (host : Host X) {P : PathModule}
    (settings : GeneralPublishSettings) (file : TFile) : M X unit :=
  copyFileToRepo host settings file;;
  commitResult ← (if autoCommit settings then commitChanges host settings
                  else mret false);
  if commitResult || negb (autoCommit settings)
  then notice "Successfully published current note"
  else mret ().

(** What the handler of [publishCurrentNote] reports for the error [e]. *)
Definition note_error (e : string) : list Event :=
  [Notice ("Error publishing note: " +:+ e); ConsoleError "Publish error:" e].

(** An event of publishing the one note [file] from the vault [v]: never
    a change of the vault, and a write only for the text of [file] or one
    of its images. *)
Definition note_event {P : PathModule} (settings : GeneralPublishSettings)
    (v : Vault) (file : TFile) (e : Event) : Prop :=
  match e with
  | VaultModify _ _ => False
  | FsWriteFile _ _ => mirror_write settings v file e
  | _ => True
  end.

(** * Properties *)

(** ** Strings *)

#[local] Arguments String.append !_ _ : simpl nomatch.

Lemma append_assoc (a b c : string) : (a +:+ b) +:+ c = a +:+ b +:+ c.
Proof. induction a as [|x a IH]; simpl; [done | by rewrite IH]. Qed.

Lemma append_length (a b : string) :
  String.length (a +:+ b) = String.length a + String.length b.
Proof. induction a as [|x a IH]; simpl; [done | by rewrite IH]. Qed.

Lemma append_same_length (a b x y : string) :
  a +:+ x = b +:+ y → String.length a = String.length b → a = b.
Proof.
  revert b; induction a as [|c a IH]; intros [|c' b] Heq Hlen;
    simpl in *; try done.
  injection Heq as -> Heq. f_equal. apply IH; [done | lia].
Qed.

Lemma strip_prefix_Some (p s r : string) :
  Js.strip_prefix p s = Some r ↔ s = p +:+ r.
Proof.
  revert s; induction p as [|a p IH]; intros s; simpl.
  - split; [by intros [= ->] | by intros ->].
  - destruct s as [|b s]; [split; intros; discriminate|].
    destruct (Ascii.eqb_spec a b) as [->|Hne].
    + rewrite IH. split; [by intros -> | by intros [= ->]].
    + split; [done | intros [= -> _]; done].
Qed.

Lemma strip_prefix_app (p r : string) : Js.strip_prefix p (p +:+ r) = Some r.
Proof. by apply strip_prefix_Some. Qed.

Lemma includes_true (p s : string) :
  Js.includes p s = true ↔ occurs_in p s.
Proof.
  induction s as [|c s IH]; simpl.
  - destruct (Js.strip_prefix p "") as [r|] eqn:E.
    + apply strip_prefix_Some in E. split; [|done]. intros _.
      exists "", r. by simpl.
    + split; [done|]. intros ([|? a] & b & Hab); simpl in Hab; [|done].
      apply strip_prefix_Some in Hab. congruence.
  - destruct (Js.strip_prefix p (String c s)) as [r|] eqn:E.
    + apply strip_prefix_Some in E. split; [|done]. intros _.
      exists "", r. by simpl.
    + rewrite IH. split.
      * intros (a & b & ->). by exists (String c a), b.
      * intros ([|c' a] & b & Hab); simpl in Hab.
        -- apply strip_prefix_Some in Hab. congruence.
        -- injection Hab as -> ->. by exists a, b.
Qed.

Lemma find_literal_Some (d s b r : string) :
  Js.find_literal d s = Some (b, r) →
  s = b +:+ d +:+ r
  ∧ ∀ b' r', s = b' +:+ d +:+ r' → (String.length b ≤ String.length b')%nat.
Proof.
  revert b r; induction s as [|c s IH]; intros b r; simpl.
  - destruct (Js.strip_prefix d "") as [r0|] eqn:E; [|done].
    intros [= <- <-]. apply strip_prefix_Some in E.
    split; [done | simpl; lia].
  - destruct (Js.strip_prefix d (String c s)) as [r0|] eqn:E.
    + intros [= <- <-]. apply strip_prefix_Some in E.
      split; [done | simpl; lia].
    + destruct (Js.find_literal d s) as [[b0 r0]|] eqn:F; [|done].
      intros [= <- <-]. destruct (IH _ _ eq_refl) as [-> Hmin].
      split; [done|]. intros [|c' b'] r' Heq; simpl in Heq.
      * apply strip_prefix_Some in Heq. congruence.
      * injection Heq as _ Heq. apply Hmin in Heq. simpl. lia.
Qed.

Lemma find_literal_None (d s : string) :
  Js.find_literal d s = None → ∀ b r, s ≠ b +:+ d +:+ r.
Proof.
  induction s as [|c s IH]; simpl.
  - destruct (Js.strip_prefix d "") as [r0|] eqn:E; [done|].
    intros _ [|c b] r Heq; simpl in Heq; [|done].
    apply strip_prefix_Some in Heq. congruence.
  - destruct (Js.strip_prefix d (String c s)) as [r0|] eqn:E; [done|].
    destruct (Js.find_literal d s) as [[b0 r0]|] eqn:F; [done|].
    intros _ [|c' b] r Heq; simpl in Heq.
    + apply strip_prefix_Some in Heq. congruence.
    + injection Heq as _ Heq. by eapply IH.
Qed.

(** ** The frontmatter pattern *)

Lemma match_frontmatter_Some (content : string) (m : Match) :
  match_frontmatter content = Some m →
  captured_frontmatter content (group1 m)
  ∧ content = fm_open +:+ group1 m +:+ fm_close +:+ m_after m
  ∧ m_before m = ""
  ∧ m_matched m = fm_open +:+ group1 m +:+ fm_close
  ∧ m_captures m = [group1 m].
Proof.
  unfold match_frontmatter, lazy_until.
  destruct (Js.strip_prefix fm_open content) as [r|] eqn:E; [|done].
  apply strip_prefix_Some in E as ->.
  destruct (Js.find_literal fm_close r) as [[body rest]|] eqn:F; [|done].
  intros [= <-]. apply find_literal_Some in F as [-> Hmin]. cbn [group1 m_captures m_after m_before m_matched].
  repeat split; try done.
  - by exists rest.
  - intros body' rest' Heq. apply Hmin with rest'.
    unfold fm_open in Heq. simpl in Heq. by injection Heq.
Qed.

Lemma match_frontmatter_None (content : string) :
  match_frontmatter content = None →
  ∀ body rest, content ≠ fm_open +:+ body +:+ fm_close +:+ rest.
Proof.
  unfold match_frontmatter, lazy_until. intros H body rest ->.
  rewrite strip_prefix_app in H.
  destruct (Js.find_literal fm_close _) as [[b r]|] eqn:F; [done|].
  by eapply find_literal_None in F.
Qed.

Lemma captured_frontmatter_unique (content b1 b2 : string) :
  captured_frontmatter content b1 → captured_frontmatter content b2 → b1 = b2.
Proof.
  intros [[r1 H1] M1] [[r2 H2] M2].
  pose proof (M1 _ _ H2). pose proof (M2 _ _ H1).
  rewrite H1 in H2. unfold fm_open in H2. simpl in H2.
  injection H2 as H2. eapply append_same_length; [done | lia].
Qed.

(** C1, as the code has it: [shouldPublishFile] answers [true] exactly
    when the text starts with a [---] line, a line break followed by
    [---] occurs later, and the text captured up to the first such
    occurrence contains [publish: true] or [publish:true]; in every other
    case it answers [false].  What follows the closing [---] on its line
    is not looked at. *)
Theorem shouldPublish_iff (content : string) :
  shouldPublish content = true ↔
  ∃ body, captured_frontmatter content body
          ∧ (occurs_in "publish: true" body ∨ occurs_in "publish:true" body).
Proof.
  unfold shouldPublish.
  destruct (match_frontmatter content) as [m|] eqn:E.
  - apply match_frontmatter_Some in E as (Hcap & _).
    rewrite orb_true_iff, !includes_true. split.
    + intros H. by exists (group1 m).
    + intros (body & Hbody & H).
      by rewrite (captured_frontmatter_unique _ _ _ Hcap Hbody).
  - split; [done|]. intros (body & [[rest Hrest] _] & _).
    by eapply match_frontmatter_None in E.
Qed.

(** A [---] that only starts the closing line closes the block for the
    code, not for the line-by-line reading. *)
Lemma shouldPublish_closing_line_counterexample :
  let content := Sample.text ["---"; "publish: true"; "----"; "text"] in
  shouldPublish content = true ∧ publishable_by_lines content = false.
Proof. by vm_compute. Qed.

(** ** The image pattern *)

Lemma strip_prefix_length (p s r : string) :
  Js.strip_prefix p s = Some r →
  String.length s = String.length p + String.length r.
Proof. intros ->%strip_prefix_Some. apply append_length. Qed.

Lemma span_not_length (c : ascii) (s : string) :
  String.length s
  = String.length (span_not c s).1 + String.length (span_not c s).2.
Proof.
  induction s as [|a s IH]; simpl; [done|].
  destruct (Ascii.eqb a c); simpl; [done|].
  destruct (span_not c s) as [run rest]. simpl in *. by rewrite IH.
Qed.

Lemma class_then_shorter (c : ascii) (close s cap rest : string) :
  class_then c close s = Some (cap, rest) →
  (String.length rest < String.length s)%nat.
Proof.
  unfold class_then. pose proof (span_not_length c s) as Hlen.
  destruct (span_not c s) as [run rest0]. simpl in Hlen.
  destruct run as [|a run]; [done|].
  destruct (Js.strip_prefix close rest0) as [r|] eqn:E; [|done].
  intros [= _ <-]. apply strip_prefix_length in E. simpl in Hlen. lia.
Qed.

Lemma match_target_shorter (s cap rest : string) :
  match_target s = Some (cap, rest) →
  (String.length rest < String.length s)%nat.
Proof.
  unfold match_target.
  destruct (Js.strip_prefix "](" s) as [r|] eqn:E; [|done].
  intros H. change (class_then ")" ")" r = Some (cap, rest)) in H.
  apply class_then_shorter in H. apply strip_prefix_length in E. lia.
Qed.

Lemma lazy_dot_then_target_shorter (s cap rest : string) :
  lazy_dot_then_target s = Some (cap, rest) →
  (String.length rest < String.length s)%nat.
Proof.
  induction s as [|c s IH].
  - done.
  - cbn [lazy_dot_then_target].
    destruct (match_target (String c s)) as [x|] eqn:E.
    + intros [= ->]. by apply match_target_shorter in E.
    + destruct (is_line_terminator c); [done|]. intros H%IH.
      cbn [String.length]. lia.
Qed.

Lemma match_embed_shorter (s cap rest : string) :
  match_embed s = Some (cap, rest) →
  (String.length rest < String.length s)%nat.
Proof.
  unfold match_embed.
  destruct (Js.strip_prefix "![[" s) as [r|] eqn:E; [|done].
  intros H. change (class_then "]" "]]" r = Some (cap, rest)) in H.
  apply class_then_shorter in H. apply strip_prefix_length in E. lia.
Qed.

Lemma match_image_shorter (s cap rest : string) :
  match_image s = Some (cap, rest) →
  (String.length rest < String.length s)%nat.
Proof.
  unfold match_image.
  destruct (Js.strip_prefix "![" s) as [r|] eqn:E; [|done].
  intros H. change (lazy_dot_then_target r = Some (cap, rest)) in H.
  apply lazy_dot_then_target_shorter in H.
  apply strip_prefix_length in E. lia.
Qed.

(** A match is never empty: what is left after it is shorter. *)
Lemma match_ref_here_shorter (s cap rest : string) :
  match_ref_here s = Some (cap, rest) →
  (String.length rest < String.length s)%nat.
Proof.
  unfold match_ref_here.
  destruct (match_embed s) as [x|] eqn:E.
  - intros [= ->]. by apply match_embed_shorter in E.
  - apply match_image_shorter.
Qed.

(** The scan never runs out of fuel: any amount above the length of the
    text gives the names [imageNames] gives. *)
Lemma imageNames_from_enough (fuel : nat) (content : string) :
  (String.length content < fuel)%nat →
  imageNames_from fuel content = imageNames content.
Proof.
  unfold imageNames.
  assert (∀ n m s, (String.length s < n)%nat → (String.length s < m)%nat →
                   imageNames_from n s = imageNames_from m s) as Hany.
  { induction n as [|n IH]; intros m s Hn Hm; [lia|].
    destruct m as [|m]; [lia|]. simpl.
    destruct (match_ref_here s) as [[cap rest]|] eqn:E.
    - apply match_ref_here_shorter in E. f_equal. apply IH; lia.
    - destruct s as [|c s]; [done|]. simpl in *. apply IH; lia. }
  intros Hfuel. apply Hany; [done | lia].
Qed.

(** ** The flag mutation *)

Lemma has_char_app (c : ascii) (a b : string) :
  has_char c (a +:+ b) = has_char c a || has_char c b.
Proof.
  induction a as [|x a IH]; simpl; [done|]. by rewrite IH, orb_assoc.
Qed.

(** A template without a dollar sign stands for itself. *)
Lemma getSubstitution_plain (m : Match) (t : string) :
  has_char "$" t = false → Js.getSubstitution m t = t.
Proof.
  induction t as [|c t IH]; simpl; [done|].
  intros [Hc Ht]%orb_false_iff. rewrite Hc. simpl. by rewrite IH.
Qed.

(** Where the frontmatter holds no dollar sign, the flag line goes in
    right before the closing delimiter and nothing else changes. *)
Lemma addPublishFlagText_plain (content : string) (m : Match) :
  match_frontmatter content = Some m →
  has_char "$" (group1 m) = false →
  addPublishFlagText content =
    fm_open +:+ group1 m +:+ Js.nl +:+ "publish: true" +:+ fm_close
    +:+ m_after m.
Proof.
  intros E Hplain. unfold addPublishFlagText, replace_frontmatter. rewrite E.
  apply match_frontmatter_Some in E as (_ & _ & -> & _).
  rewrite getSubstitution_plain.
  - unfold fm_open, fm_close. simpl. by rewrite !append_assoc.
  - rewrite !has_char_app, Hplain. done.
Qed.

(** Without a frontmatter block a minimal one is put in front. *)
Lemma addPublishFlagText_fresh (content : string) :
  match_frontmatter content = None →
  addPublishFlagText content =
    Sample.text ["---"; "publish: true"; "---"; ""; content].
Proof. intros E. unfold addPublishFlagText. by rewrite E. Qed.

(** A declined confirmation leaves the note and the target tree as they
    are. *)
Lemma publishCurrentNote_declined {X} (host : Host X) {P : PathModule}
    (settings : GeneralPublishSettings) (file : TFile) (content : string)
    (w : World X) :
  gitRepoPath settings ≠ "" →
  vault_read (vault w) file = Some content →
  shouldPublish content = false →
  publishCurrentNote host settings (Some file) false w = (Ok (), w).
Proof.
  intros Hroot Hread Hflag. unfold publishCurrentNote.
  rewrite bool_decide_eq_false_2 by done.
  unfold try_catch, shouldPublishFile, mbind, M_bind, read.
  rewrite Hread. simpl. by rewrite Hflag.
Qed.

(** C9, on a note whose frontmatter holds [$$]: the replacement text of
    [content.replace] is a template, so the two dollar signs of the
    original come back as one.  The note is changed beyond the added
    flag line. *)
Theorem addPublishFlag_rewrites_dollars :
  let note := mkTFile "pricing.md" "pricing.md" "md" in
  let before := Sample.text ["---"; "price: $$"; "---"; "Body"] in
  let expected :=
    Sample.text ["---"; "price: $$"; "publish: true"; "---"; "Body"] in
  let w := Sample.start [EFile note before] (∅ : gmap string string) in
  let w' := snd (publishCurrentNote (P := posix "/") Sample.git_host
                   Sample.settings (Some note) true w) in
  shouldPublish before = false
  ∧ vault_read (vault w') note
    = Some (Sample.text ["---"; "price: $"; "publish: true"; "---"; "Body"])
  ∧ vault_read (vault w') note ≠ Some expected.
Proof. by vm_compute. Qed.

(** ** Resolution of image names *)

Lemma find_ext {A} (p q : A → bool) (l : list A) :
  (∀ x, x ∈ l → p x = q x) → find p l = find q l.
Proof.
  induction l as [|x l IH]; intros H; simpl; [done|].
  rewrite <- (H x) by left. destruct (p x); [done|].
  apply IH. intros y Hy. apply H. by right.
Qed.

Lemma find_none_all {A} (p : A → bool) (l : list A) :
  (∀ x, x ∈ l → p x = false) → find p l = None.
Proof.
  induction l as [|x l IH]; intros H; simpl; [done|].
  rewrite (H x) by left. apply IH. intros y Hy. apply H. by right.
Qed.

(** What [find] returns is the first element that satisfies the
    predicate. *)
Lemma find_first {A} (p : A → bool) (l : list A) (x : A) :
  find p l = Some x →
  ∃ before after, l = before ++ x :: after
                  ∧ Forall (λ y, p y = false) before ∧ p x = true.
Proof.
  induction l as [|y l IH]; simpl; [done|].
  destruct (p y) eqn:E.
  - intros [= ->]. by exists [], l.
  - intros (before & after & -> & Hb & Hx)%IH.
    exists (y :: before), after. split; [done|]. split; [by constructor | done].
Qed.

Lemma getFiles_path_in (v : Vault) (f : TFile) :
  f ∈ getFiles v → path f ∈ entry_path <$> v.
Proof.
  unfold getFiles. rewrite list_elem_of_omap.
  intros ([g c|p] & Hin & [= ->]).
  apply list_elem_of_fmap. by exists (EFile f c).
Qed.

(** In a well-formed vault, when the direct lookup of a name does not
    yield a file, no file has that name for its path. *)
Lemma no_file_at_path (v : Vault) (n : string) :
  vault_wf v →
  (∀ f c, getAbstractFileByPath v n ≠ Some (EFile f c)) →
  ∀ f, f ∈ getFiles v → path f ≠ n.
Proof.
  unfold vault_wf, getAbstractFileByPath.
  induction v as [|e v IH]; simpl; intros Hwf Hdirect f Hf.
  - by apply elem_of_nil in Hf.
  - apply NoDup_cons in Hwf as [Hnotin Hwf].
    destruct (bool_decide (entry_path e = n)) eqn:E.
    + apply bool_decide_eq_true in E.
      destruct e as [g c|p]; [by destruct (Hdirect g c)|].
      simpl in *. subst p. intros <-. apply Hnotin.
      by apply getFiles_path_in.
    + apply bool_decide_eq_false in E.
      destruct e as [g c|p]; simpl in *.
      * apply elem_of_cons in Hf as [->|Hf]; [done | by apply IH].
      * by apply IH.
Qed.

(** C3: in a vault whose paths are its keys, the file the code settles
    on is the one the priority order names, known path first, then a file
    whose path is the name, then the filename; and a file found by its
    filename is the first such file of the enumeration, so the answer is
    the same whenever the vault is the same. *)
Theorem resolveImage_priority (v : Vault) (imageName : string) :
  vault_wf v →
  resolveImage v imageName = resolve_by_priority v imageName
  ∧ ∀ f, (∀ g c, getAbstractFileByPath v imageName ≠ Some (EFile g c)) →
         resolveImage v imageName = Some f →
         ∃ before after,
           getFiles v = before ++ f :: after
           ∧ Forall (λ g, name g ≠ imageName
                          ∧ name g ≠ Js.pop (Js.split "/" imageName)) before
           ∧ (name f = imageName
              ∨ name f = Js.pop (Js.split "/" imageName)).
Proof.
  intros Hwf.
  assert (Hfallback :
    (∀ g c, getAbstractFileByPath v imageName ≠ Some (EFile g c)) →
    find (λ f, bool_decide (path f = imageName)) (getFiles v) = None
    ∧ find (name_matches imageName) (getFiles v)
      = find (λ f, bool_decide (name f = imageName)
                   || bool_decide (name f = Js.pop (Js.split "/" imageName)))
             (getFiles v)).
  { intros Hdirect. pose proof (no_file_at_path v imageName Hwf Hdirect) as Hno.
    split.
    - apply find_none_all. intros f Hf. apply bool_decide_eq_false. by apply Hno.
    - apply find_ext. intros f Hf. unfold name_matches.
      rewrite (bool_decide_eq_false_2 (path f = imageName)) by by apply Hno.
      by rewrite orb_false_r. }
  split.
  - unfold resolveImage, resolve_by_priority.
    destruct (getAbstractFileByPath v imageName) as [[g c|p]|] eqn:E; [done| |];
      destruct Hfallback as [-> ->]; by try (intros ???; congruence).
  - intros f Hdirect Hres. destruct (Hfallback Hdirect) as [_ Heq].
    unfold resolveImage in Hres.
    assert (find (name_matches imageName) (getFiles v) = Some f) as Hfind.
    { destruct (getAbstractFileByPath v imageName) as [[g c|p]|];
        [by destruct (Hdirect g c) | done | done]. }
    rewrite Heq in Hfind.
    apply find_first in Hfind as (before & after & -> & Hb & Hx).
    exists before, after. repeat split; try done.
    + eapply Forall_impl; [exact Hb|]. simpl. intros g Hg.
      apply orb_false_iff in Hg as [H1 H2].
      apply bool_decide_eq_false in H1, H2. by split.
    + apply orb_true_iff in Hx as [Hx|Hx]; apply bool_decide_eq_true in Hx;
        [by left | by right].
Qed.

(** Two files named [diagram.png]: the embed [![[diagram.png]]] goes to
    the one the vault lists first. *)
Lemma resolveImage_priority_witness :
  resolveImage Sample.corpus "diagram.png"
  = resolve_by_priority Sample.corpus "diagram.png"
  ∧ resolveImage Sample.corpus "diagram.png" = Some Sample.pic1.
Proof.
  split; [|reflexivity].
  refine (proj1 (resolveImage_priority Sample.corpus "diagram.png" _)).
  unfold vault_wf.
  apply (bool_decide_unpack (NoDup (entry_path <$> Sample.corpus))).
  vm_compute. exact I.
Defined.

(** ** Runs and their traces *)

Lemma disk_steps_app (evs1 evs2 : list Event) (d1 d2 d3 : Disk) :
  disk_steps evs1 d1 d2 → disk_steps evs2 d2 d3 →
  disk_steps (evs1 ++ evs2) d1 d3.
Proof.
  induction 1 as [d|e evs d d' _ IH|e evs d d' _ IH]; intros H2; simpl.
  - done.
  - apply disk_steps_accepted. by apply IH.
  - apply disk_steps_rejected. by apply IH.
Qed.

(** A file of the target tree is as it was, or holds the data of a
    recorded write to its path. *)
Lemma disk_steps_lookup (evs : list Event) (d d' : Disk) :
  disk_steps evs d d' →
  ∀ p, files d' !! p = files d !! p
       ∨ ∃ data, FsWriteFile p data ∈ evs ∧ files d' !! p = Some data.
Proof.
  induction 1 as [d|e evs d d' _ IH|e evs d d' _ IH]; intros p.
  - by left.
  - destruct (IH p) as [Heq|(data & Hin & Hp)].
    + destruct e as [| | | |q data| |]; simpl in Heq; try by left.
      destruct (decide (q = p)) as [->|Hne].
      * right. exists data. rewrite Heq, lookup_insert_eq.
        split; [left | done].
      * left. by rewrite Heq, lookup_insert_ne.
    + right. exists data. split; [by right | done].
  - destruct (IH p) as [Heq|(data & Hin & Hp)]; [by left|].
    right. exists data. split; [by right | done].
Qed.

Section Runs.
Context {X : Type}.
Implicit Types (w : World X) (Q : Event → Prop).

Lemma runs_refl Q w : runs Q w w.
Proof.
  split; [done|]. exists []. rewrite app_nil_r.
  repeat split; [constructor | constructor].
Qed.

Lemma runs_trans Q w1 w2 w3 : runs Q w1 w2 → runs Q w2 w3 → runs Q w1 w3.
Proof.
  intros (Hv1 & evs1 & Ht1 & Hq1 & Hd1) (Hv2 & evs2 & Ht2 & Hq2 & Hd2).
  split; [congruence|]. exists (evs1 ++ evs2). repeat split.
  - by rewrite Ht2, Ht1, app_assoc.
  - by apply Forall_app.
  - by eapply disk_steps_app.
Qed.

Lemma runs_weaken Q Q' w w' :
  (∀ e, Q e → Q' e) → runs Q w w' → runs Q' w w'.
Proof.
  intros HQ (Hv & evs & Ht & Hq & Hd). split; [done|].
  exists evs. repeat split; [done | by eapply Forall_impl | done].
Qed.

(** A step that records one event and leaves the files alone, or applies
    the event to them. *)
Lemma runs_event Q w (e : Event) (d : Disk) (x : X) :
  Q e → d = disk w ∨ d = apply_fs (disk w) e →
  runs Q w (mkWorld (vault w) d x (trace w ++ [e])).
Proof.
  intros He Hd. split; [done|]. exists [e]. repeat split; simpl.
  - by constructor.
  - destruct Hd as [->| ->].
    + apply disk_steps_rejected. constructor.
    + apply disk_steps_accepted. constructor.
Qed.

Lemma emits_ret {A} v Q (a : A) : emits v Q (mret a : M X A).
Proof. intros w _. apply runs_refl. Qed.

Lemma emits_throw {A} v Q (e : string) : emits v Q (throw e : M X A).
Proof. intros w _. apply runs_refl. Qed.

Lemma emits_bind {A B} v Q (c : M X A) (k : A → M X B) :
  emits v Q c → (∀ a, emits v Q (k a)) → emits v Q (c ≫= k).
Proof.
  intros Hc Hk w Hw. unfold mbind, M_bind. specialize (Hc w Hw).
  destruct (c w) as [[a|e] w1]; simpl in *; [|done].
  eapply runs_trans; [done|]. apply Hk. destruct Hc as [Hv _]. congruence.
Qed.

Lemma emits_try_catch {A} v Q (c : M X A) (h : string → M X A) :
  emits v Q c → (∀ e, emits v Q (h e)) → emits v Q (try_catch c h).
Proof.
  intros Hc Hh w Hw. unfold try_catch. specialize (Hc w Hw).
  destruct (c w) as [[a|e] w1]; simpl in *; [done|].
  eapply runs_trans; [done|]. apply Hh. destruct Hc as [Hv _]. congruence.
Qed.

Lemma emits_forEach {A} v Q (f : A → M X unit) (l : list A) :
  (∀ x, x ∈ l → emits v Q (f x)) → emits v Q (forEach f l).
Proof.
  induction l as [|x l IH]; intros Hf; simpl.
  - apply emits_ret.
  - apply emits_bind; [apply Hf; left | intros _].
    apply IH. intros y Hy. apply Hf. by right.
Qed.

Lemma emits_weaken {A} v Q Q' (c : M X A) :
  (∀ e, Q e → Q' e) → emits v Q c → emits v Q' c.
Proof. intros HQ Hc w Hw. eapply runs_weaken; [apply HQ | by apply Hc]. Qed.

Lemma emits_emit v Q (e : Event) : Q e → emits v Q (emit e : M X unit).
Proof. intros He w _. apply runs_event; [apply He | by left]. Qed.

End Runs.

Section Pipeline.
Context {X : Type} (host : Host X) {P : PathModule}.
Context (settings : GeneralPublishSettings).
Implicit Types (w : World X) (Q : Event → Prop) (v : Vault).

Lemma bind_ok {A B} (c : M X A) (k : A → M X B) w a w1 :
  c w = (Ok a, w1) → (c ≫= k) w = k a w1.
Proof. intros H. unfold mbind, M_bind. by rewrite H. Qed.

Lemma bind_throw {A B} (c : M X A) (k : A → M X B) w e w1 :
  c w = (Throw e, w1) → (c ≫= k) w = (Throw e, w1).
Proof. intros H. unfold mbind, M_bind. by rewrite H. Qed.

Lemma ret_bind {A B} (a : A) (k : A → M X B) : (mret a ≫= k) = k a.
Proof. reflexivity. Qed.

(** What follows a read sees the content the vault holds. *)
Lemma emits_read_bind {A} v Q (file : TFile) (k : string → M X A) :
  (∀ c, vault_read v file = Some c → emits v Q (k c)) →
  emits v Q (read file ≫= k).
Proof.
  intros Hk w Hw. unfold mbind, M_bind, read. rewrite Hw.
  destruct (vault_read v file) as [c|] eqn:E; [by apply Hk | apply runs_refl].
Qed.

Lemma emits_mkdir v Q (dir : string) :
  Q (FsMkdir dir) → emits v Q (mkdir host dir).
Proof.
  intros He w _. unfold mkdir.
  destruct (h_fs host _ _) as [[e|] x]; simpl;
    (apply runs_event; [apply He|]); [by left | by right].
Qed.

Lemma emits_writeFile v Q (file data : string) :
  Q (FsWriteFile file data) → emits v Q (writeFile host file data).
Proof.
  intros He w _. unfold writeFile.
  destruct (h_fs host _ _) as [[e|] x]; simpl;
    (apply runs_event; [apply He|]); [by left | by right].
Qed.

(** *** Mirroring *)

Lemma emits_copyAssetToRepo v (a : TFile) :
  emits v (asset_write settings v a) (copyAssetToRepo host settings a).
Proof.
  unfold copyAssetToRepo, readBinary. apply emits_read_bind. intros c Hc.
  apply emits_bind; [by apply emits_mkdir|]. intros _.
  by apply emits_writeFile.
Qed.

Lemma emits_copyReferencedAssets v (content : string) (file : TFile) :
  emits v (assets_write settings v content)
        (copyReferencedAssets host settings content file).
Proof.
  unfold copyReferencedAssets. apply emits_forEach. intros imageName Hin.
  intros w Hw. unfold copyReferencedAsset.
  case_bool_decide; [apply runs_refl|]. rewrite Hw.
  destruct (resolveImage v imageName) as [a|] eqn:E.
  - refine (emits_try_catch v _ _ _ _ _ w Hw).
    + eapply emits_weaken; [|apply emits_copyAssetToRepo].
      intros [] He; simpl in *; try done.
      destruct He as [-> Hread]. by exists imageName, a.
    + intros e. by apply emits_emit.
  - by refine (emits_emit v _ _ _ w Hw).
Qed.

Lemma emits_copyFileToRepo v (file : TFile) :
  emits v (mirror_write settings v file) (copyFileToRepo host settings file).
Proof.
  unfold copyFileToRepo, processContent. apply emits_read_bind. intros c Hc.
  rewrite ret_bind. destruct (negb _); [apply emits_throw|].
  apply emits_bind; [by apply emits_mkdir|]. intros _.
  apply emits_bind; [apply emits_writeFile; by left|]. intros _.
  eapply emits_weaken; [|apply emits_copyReferencedAssets].
  intros [] He; simpl in *; try done.
  destruct He as (imageName & a & ? & ? & ? & ?).
  right. by exists c, imageName, a.
Qed.

(** A successful [copyFileToRepo] has created the publish folder and
    written the text of the file before anything else. *)
Lemma copyFileToRepo_ok_trace (file : TFile) w w' :
  copyFileToRepo host settings file w = (Ok (), w') →
  ∃ text rest,
    vault_read (vault w) file = Some text
    ∧ isAbsolute (gitRepoPath settings) = true
    ∧ trace w' = trace w ++ [FsMkdir (publishDir settings);
                             FsWriteFile (docTarget settings file) text] ++ rest.
Proof.
  unfold copyFileToRepo, processContent.
  unfold mbind at 1, M_bind at 1, read.
  destruct (vault_read (vault w) file) as [text|] eqn:Hread; [|done].
  rewrite ret_bind.
  destruct (isAbsolute (gitRepoPath settings)) eqn:Habs; simpl; [|done].
  unfold mbind at 1, M_bind at 1, mkdir.
  destruct (h_fs host (OpMkdir _) _) as [[e|] x1]; [done|].
  unfold mbind at 1, M_bind at 1, writeFile. simpl.
  destruct (h_fs host (OpWriteFile _ _) _) as [[e|] x2]; [done|].
  intros Hrest.
  match type of Hrest with
  | _ _ _ _ _ ?w1 = _ =>
      pose proof (emits_copyReferencedAssets (vault w) text file w1 eq_refl)
        as (_ & rest & Ht & _)
  end.
  rewrite Hrest in Ht. simpl in Ht.
  exists text, rest. repeat split; try done.
  rewrite Ht. by rewrite <- !app_assoc.
Qed.

End Pipeline.

Section Commit.
Context {X : Type} (host : Host X) {P : PathModule}.
Context (settings : GeneralPublishSettings).
Implicit Types (w : World X).

(** [commitChanges] by the answers of the shell. *)
Lemma commitChanges_cases w :
  commitChanges host settings w =
  match h_exec host (statusCommand settings) (disk w) (ext w) with
  | (inl out, x1) =>
      if Js.trim_is_empty out
      then (Ok false, after_exec w [statusCommand settings] x1)
      else
        let cmd := gitCommands settings (message_at host settings x1) in
        match h_exec host cmd (disk w) x1 with
        | (inl _, x2) =>
            (Ok true, after_exec w [statusCommand settings; cmd] x2)
        | (inr e, x2) =>
            (if benign e then Ok false else Throw e,
             after_exec w [statusCommand settings; cmd] x2)
        end
  | (inr e, x1) =>
      (if benign e then Ok false else Throw e,
       after_exec w [statusCommand settings] x1)
  end.
Proof.
  unfold commitChanges, try_catch, mbind, M_bind, execAsync, after_exec, benign.
  destruct (h_exec host (statusCommand settings) _ _) as [[out|e] x1]; simpl.
  - destruct (Js.trim_is_empty out); simpl; [done|].
    unfold toISOString, message_at. simpl.
    destruct (h_exec host (gitCommands settings _) _ _) as [[out2|e] x2]; simpl.
    + by rewrite <- app_assoc.
    + rewrite <- app_assoc. simpl.
      by destruct (Js.includes "nothing to commit" e),
                  (Js.includes "working tree clean" e).
  - by destruct (Js.includes "nothing to commit" e),
                (Js.includes "working tree clean" e).
Qed.

(** C5: the files of the target tree are the same after [commitChanges]
    as before, whatever its outcome; when the status output is blank the
    outcome is [NoChanges] and the status query is the only command that
    ran; when the commit is rejected with a message that contains
    [nothing to commit] or [working tree clean] the outcome is
    [NoChanges]; when it is rejected with another message the outcome is
    [Failed] with that message. *)
Theorem commitChanges_outcomes w :
  let r := commitChanges host settings w in
  disk r.2 = disk w
  ∧ vault r.2 = vault w
  ∧ (∀ out x1,
       h_exec host (statusCommand settings) (disk w) (ext w) = (inl out, x1) →
       (Js.trim_is_empty out = true →
        commit_outcome r.1 = NoChanges
        ∧ exec_calls r.2.(trace) = exec_calls (trace w) ++ [statusCommand settings])
       ∧ (Js.trim_is_empty out = false →
          ∀ res x2,
            h_exec host (gitCommands settings (message_at host settings x1)) (disk w) x1
            = (res, x2) →
            match res with
            | inl _ => commit_outcome r.1 = Committed
            | inr e =>
                (benign e = true → commit_outcome r.1 = NoChanges)
                ∧ (benign e = false → commit_outcome r.1 = Failed e)
            end)).
Proof.
  intros r. subst r. rewrite commitChanges_cases.
  destruct (h_exec host (statusCommand settings) _ _) as [[out|e] x1] eqn:E1.
  - destruct (Js.trim_is_empty out) eqn:Hblank.
    + split; [done|]. split; [done|]. intros out' x1' [= <- <-].
      rewrite Hblank. split; [|done]. intros _. split; [done|].
      simpl. unfold exec_calls. by rewrite omap_app.
    + cbn zeta.
      destruct (h_exec host (gitCommands settings _) _ _) as [[out2|e] x2] eqn:E2.
      * split; [done|]. split; [done|]. intros out' x1' [= <- <-].
        rewrite Hblank. split; [done|]. intros _ res x2' Hres.
        rewrite E2 in Hres. by injection Hres as <- <-.
      * split; [done|]. split; [done|]. intros out' x1' [= <- <-].
        rewrite Hblank. split; [done|]. intros _ res x2' Hres.
        rewrite E2 in Hres. injection Hres as <- <-.
        simpl. by split; intros ->.
  - split; [done|]. split; [done|]. intros out' x1' [=].
Qed.

End Commit.

(** The three answers of the shell [commitChanges] tells apart, at a
    clean tree, at an empty commit and at a commit that git refuses. *)
Lemma commitChanges_outcomes_witness :
  let P := posix "/" in
  let clean := Sample.start Sample.corpus (∅ : gmap string string) in
  let dirty := Sample.start Sample.corpus () in
  let race := Sample.rejecting_host "nothing to commit, working tree clean" in
  let refused := Sample.rejecting_host "fatal: unable to auto-detect email address" in
  (commit_outcome (commitChanges Sample.git_host Sample.settings clean).1
   = NoChanges
   ∧ exec_calls (commitChanges Sample.git_host Sample.settings clean).2.(trace)
     = [statusCommand Sample.settings])
  ∧ commit_outcome (commitChanges race Sample.settings dirty).1 = NoChanges
  ∧ commit_outcome (commitChanges refused Sample.settings dirty).1
    = Failed "fatal: unable to auto-detect email address"
  ∧ disk (commitChanges refused Sample.settings dirty).2 = disk dirty.
Proof.
  intros P clean dirty race refused.
  pose proof (commitChanges_outcomes Sample.git_host Sample.settings clean)
    as (_ & _ & Hclean).
  pose proof (commitChanges_outcomes race Sample.settings dirty)
    as (_ & _ & Hrace).
  pose proof (commitChanges_outcomes refused Sample.settings dirty)
    as (Hdisk & _ & Hrefused).
  split; [|split; [|split]].
  - exact (proj1 (Hclean "" ∅ eq_refl) eq_refl).
  - exact (proj1 (proj2 (Hrace _ () eq_refl) eq_refl _ () eq_refl) eq_refl).
  - exact (proj2 (proj2 (Hrefused _ () eq_refl) eq_refl _ () eq_refl) eq_refl).
  - exact Hdisk.
Defined.

(** ** The batch *)

Section Batch.
Context {X : Type} (host : Host X) {P : PathModule}.
Context (settings : GeneralPublishSettings).
Implicit Types (w : World X).

(** Selecting the publishable notes reads the vault and changes nothing;
    the notes it returns were read. *)
Lemma collectPublishable_reads (fs : list TFile) w :
  ∃ r, collectPublishable fs w = (r, w)
       ∧ ∀ l, r = Ok l →
           ∀ f, f ∈ l → ∃ c, vault_read (vault w) f = Some c
                             ∧ shouldPublish c = true.
Proof.
  induction fs as [|file fs (r & IH & Hread)]; simpl.
  - exists (Ok []). split; [done|]. intros l [= <-] f Hf.
    by apply elem_of_nil in Hf.
  - unfold mbind at 1, M_bind at 1, shouldPublishFile.
    unfold mbind at 1, M_bind at 1, read.
    destruct (vault_read (vault w) file) as [c|] eqn:Hc;
      [|eexists; split; [done|]; intros; discriminate].
    simpl. unfold mbind at 1, M_bind at 1. rewrite IH.
    destruct r as [l|e]; [|eexists; split; [done|]; intros; discriminate].
    simpl. eexists; split; [done|]. intros l' [= <-] f Hf.
    destruct (shouldPublish c) eqn:Hpub; [|by eapply Hread].
    apply elem_of_cons in Hf as [->|Hf]; [by exists c | by eapply Hread].
Qed.

Lemma getPublishableFiles_reads w :
  ∃ r, getPublishableFiles w = (r, w)
       ∧ ∀ l, r = Ok l →
           ∀ f, f ∈ l → ∃ c, vault_read (vault w) f = Some c
                             ∧ shouldPublish c = true.
Proof. apply collectPublishable_reads. Qed.

(** [publishAllNotes] by the outcomes of its steps. *)
Lemma publishAllNotes_cases w :
  publishAllNotes host settings w =
  if bool_decide (gitRepoPath settings = "")
  then (Ok (), logged [Notice "Please configure git repository path in settings"] w)
  else
    match getPublishableFiles w with
    | (Throw e, w1) => (Ok (), logged (batch_error e) w1)
    | (Ok publishableFiles, w1) =>
        let n := length publishableFiles in
        if bool_decide (n = 0)
        then (Ok (), logged [Notice no_files_notice] w1)
        else
          match forEach (copyFileToRepo host settings) publishableFiles
                  (logged [Notice (publishing_notice n)] w1) with
          | (Throw e, w2) => (Ok (), logged (batch_error e) w2)
          | (Ok _, w2) =>
              match (if autoCommit settings then commitChanges host settings w2
                     else (Ok false, w2)) with
              | (Throw e, w3) => (Ok (), logged (batch_error e) w3)
              | (Ok commitResult, w3) =>
                  (Ok (),
                   logged [Notice (if commitResult || negb (autoCommit settings)
                                   then publishedNotice n else copiedNotice n)]
                          w3)
              end
          end
    end.
Proof.
  unfold publishAllNotes. case_bool_decide; [done|].
  unfold try_catch. unfold mbind at 1, M_bind at 1.
  assert (Hreport : ∀ e (w0 : World X),
    (notice ("Error publishing notes: " +:+ e);;
     emit (ConsoleError "Publish error:" e)) w0
    = (Ok (), logged (batch_error e) w0)).
  { intros e w0. unfold logged, batch_error, mbind, M_bind, notice, emit. simpl.
    by rewrite <- app_assoc. }
  destruct (getPublishableFiles w) as [[files|e] w1]; [|apply Hreport].
  cbn zeta. case_bool_decide; [done|].
  unfold mbind at 1, M_bind at 1. unfold notice at 1, emit at 1.
  fold (logged [Notice (publishing_notice (length files))] w1).
  unfold mbind at 1, M_bind at 1.
  destruct (forEach _ files _) as [[[]|e] w2]; [|apply Hreport].
  unfold mbind at 1, M_bind at 1.
  destruct (autoCommit settings).
  - destruct (commitChanges host settings w2) as [[b|e] w3]; [|apply Hreport].
    by destruct b.
  - done.
Qed.

(** With a relative root [copyFileToRepo] rejects before it touches
    anything. *)
Lemma copyFileToRepo_relative (file : TFile) w :
  isAbsolute (gitRepoPath settings) = false →
  ∃ e, copyFileToRepo host settings file w = (Throw e, w)
       ∧ (is_Some (vault_read (vault w) file) → e = absolute_path_error).
Proof.
  intros Hrel. unfold copyFileToRepo, processContent.
  unfold mbind at 1, M_bind at 1, read.
  destruct (vault_read (vault w) file) as [c|].
  - rewrite ret_bind, Hrel. simpl. by eexists.
  - eexists. split; [done|]. by intros [? [=]].
Qed.

Lemma forEach_first_throws {A} (f : A → M X unit) (x : A) (l : list A) w e w' :
  f x w = (Throw e, w') → forEach f (x :: l) w = (Throw e, w').
Proof. intros H. simpl. by apply bind_throw. Qed.

(** Once a turn of the loop rejects, the turns after it do not run. *)
Lemma forEach_stops {A} (f : A → M X unit) (done_ : list A) (x : A)
    (rest : list A) w w1 e w2 :
  forEach f done_ w = (Ok (), w1) → f x w1 = (Throw e, w2) →
  forEach f (done_ ++ x :: rest) w = (Throw e, w2).
Proof.
  revert w. induction done_ as [|y l IH]; intros w; simpl.
  - intros [= ->] Hx. by apply bind_throw.
  - destruct (f y w) as [[[]|e'] w'] eqn:E.
    + rewrite !(bind_ok _ _ _ _ _ E). apply IH.
    + by rewrite (bind_throw _ _ _ _ _ E).
Qed.

(** C4, as the code has it: under a root that is not absolute
    [publishAllNotes] leaves the vault and the target tree as they are
    and runs no command; all it does is report.  With an empty root it
    asks for the setting; with a relative root and at least one
    publishable note it reports the error raised at the first note,
    before any file system call; with a relative root and no publishable
    note it reports that no files were found and nothing else. *)
Theorem relative_root_no_mutation w :
  isAbsolute (gitRepoPath settings) = false →
  ∃ reports,
    publishAllNotes host settings w = (Ok (), logged reports w)
    ∧ Forall (λ e, is_report e = true) reports
    ∧ (gitRepoPath settings = "" →
       reports = [Notice "Please configure git repository path in settings"])
    ∧ (gitRepoPath settings ≠ "" →
       ∀ publishableFiles,
         getPublishableFiles w = (Ok publishableFiles, w) →
         (publishableFiles = [] → reports = [Notice no_files_notice])
         ∧ (publishableFiles ≠ [] →
            reports = Notice (publishing_notice (length publishableFiles))
                      :: batch_error absolute_path_error)).
Proof.
  intros Hrel. rewrite publishAllNotes_cases. case_bool_decide as Hroot.
  { eexists. split; [done|]. split; [by repeat constructor|]. by split. }
  destruct (getPublishableFiles_reads w) as (r & -> & Hread).
  destruct r as [files|e].
  2: { exists (batch_error e). split; [done|]. split; [by repeat constructor|].
       split; [done|]. intros _ files [=]. }
  cbn zeta. case_bool_decide as Hlen.
  { eexists. split; [done|]. split; [by repeat constructor|].
    split; [done|]. intros _ files' [= <-]. split; [done|].
    by destruct files. }
  destruct files as [|file files]; [done|].
  destruct (Hread _ eq_refl file) as (c & Hc & _); [left|].
  destruct (copyFileToRepo_relative file
              (logged [Notice (publishing_notice (length (file :: files)))] w)
              Hrel) as (e & Hthrow & He).
  rewrite (forEach_first_throws _ _ _ _ _ _ Hthrow).
  rewrite He by (simpl; by rewrite Hc).
  exists (Notice (publishing_notice (length (file :: files)))
          :: batch_error absolute_path_error).
  split; [|split; [by repeat constructor|split; [done|]]].
  - unfold logged. simpl. by rewrite <- app_assoc.
  - intros _ files' [= <-]. by split.
Qed.

(** C2, as the code has it: copying the images of a note never rejects,
    a failed copy of an image is caught and logged with [console.error]
    and the loop goes on; a rejection while a note itself is mirrored
    ends the batch there: the notes after it are not mirrored, the commit
    step does not run, and the error is reported in one notice. *)
Theorem write_failures_in_batch :
  (∀ content file w,
     (copyReferencedAssets host settings content file w).1 = Ok ())
  ∧ (∀ imageName a e w w',
       imageName ≠ "" →
       resolveImage (vault w) imageName = Some a →
       copyAssetToRepo host settings a w = (Throw e, w') →
       copyReferencedAsset host settings imageName w
       = (Ok (), logged [ConsoleError ("Failed to copy asset " +:+ imageName
                                       +:+ ":") e] w'))
  ∧ (∀ w publishableFiles mirrored file rest w1 e w2,
       gitRepoPath settings ≠ "" →
       getPublishableFiles w = (Ok publishableFiles, w) →
       publishableFiles = mirrored ++ file :: rest →
       forEach (copyFileToRepo host settings) mirrored
         (logged [Notice (publishing_notice (length publishableFiles))] w)
       = (Ok (), w1) →
       copyFileToRepo host settings file w1 = (Throw e, w2) →
       publishAllNotes host settings w = (Ok (), logged (batch_error e) w2)).
Proof.
  split; [|split].
  - intros content file. unfold copyReferencedAssets.
    induction (imageNames content) as [|imageName l IH]; intros w; [done|].
    simpl. unfold mbind, M_bind.
    assert ((copyReferencedAsset host settings imageName w).1 = Ok ()) as Hone.
    { unfold copyReferencedAsset. case_bool_decide; [done|].
      destruct (resolveImage _ _); [|done]. unfold try_catch.
      by destruct (copyAssetToRepo _ _ _ _) as [[[]|e] w']. }
    destruct (copyReferencedAsset _ _ _ _) as [[[]|e] w']; [apply IH | done].
  - intros imageName a e w w' Hname Hres Hcopy. unfold copyReferencedAsset.
    rewrite bool_decide_eq_false_2 by done. rewrite Hres.
    unfold try_catch. by rewrite Hcopy.
  - intros w files mirrored file rest w1 e w2 Hroot Hfiles -> Hdone Hthrow.
    rewrite publishAllNotes_cases. rewrite bool_decide_eq_false_2 by done.
    rewrite Hfiles. cbn zeta.
    rewrite bool_decide_eq_false_2
      by (rewrite length_app; simpl; lia).
    by rewrite (forEach_stops _ _ _ _ _ _ _ _ Hdone Hthrow).
Qed.

End Batch.

(** A relative root and two publishable notes: the run reports the error
    and leaves the world as it is. *)
Lemma relative_root_no_mutation_witness :
  let P := posix "/home/u" in
  let s := mkSettings "site" "content" "assets" "Update" true in
  let w := Sample.start Sample.corpus (∅ : gmap string string) in
  ∃ reports,
    publishAllNotes Sample.git_host s w = (Ok (), logged reports w)
    ∧ Forall (λ e, is_report e = true) reports
    ∧ (gitRepoPath s = "" →
       reports = [Notice "Please configure git repository path in settings"])
    ∧ (gitRepoPath s ≠ "" →
       ∀ publishableFiles,
         getPublishableFiles w = (Ok publishableFiles, w) →
         (publishableFiles = [] → reports = [Notice no_files_notice])
         ∧ (publishableFiles ≠ [] →
            reports = Notice (publishing_notice (length publishableFiles))
                      :: batch_error absolute_path_error)).
Proof.
  intros P s w. apply (relative_root_no_mutation Sample.git_host s w).
  reflexivity.
Defined.

(** A relative root and no publishable note: the run ends with the
    notice that no files were found, and no configuration error is
    reported. *)
Lemma relative_root_unreported_counterexample :
  let P := posix "/home/u" in
  let s := mkSettings "site" "content" "assets" "Update" true in
  let w := Sample.start Sample.drafts_only (∅ : gmap string string) in
  let w' := (publishAllNotes Sample.git_host s w).2 in
  isAbsolute (gitRepoPath s) = false
  ∧ trace w' = [Notice no_files_notice]
  ∧ existsb is_configuration_error (trace w') = false.
Proof. by vm_compute. Qed.

(** The first of two publishable notes cannot be written: the second is
    never mirrored and the run ends with the error notice. *)
Lemma write_failures_in_batch_witness :
  let P := posix "/home/u" in
  let host := Sample.readonly_host "/srv/site/content/a.md" "" in
  let w := Sample.start Sample.corpus () in
  ∃ w2,
    publishAllNotes host Sample.settings w
    = (Ok (), logged (batch_error
                "EACCES: permission denied, open /srv/site/content/a.md") w2)
    ∧ files (disk w2) = ∅.
Proof.
  intros P host w. eexists. split.
  - eapply (proj2 (proj2 (write_failures_in_batch host Sample.settings)))
      with (mirrored := []) (file := Sample.a_md) (rest := [Sample.b_md]).
    + done.
    + vm_compute. reflexivity.
    + reflexivity.
    + reflexivity.
    + vm_compute. reflexivity.
  - reflexivity.
Defined.

(** A rejected write of the first note ends the batch: the note after it
    is publishable and is not mirrored. *)
Lemma document_write_failure_counterexample :
  let P := posix "/home/u" in
  let host := Sample.readonly_host "/srv/site/content/a.md" "" in
  let w := Sample.start Sample.corpus () in
  let w' := (publishAllNotes host Sample.settings w).2 in
  (getPublishableFiles w).1 = Ok [Sample.a_md; Sample.b_md]
  ∧ files (disk w') !! docTarget Sample.settings Sample.b_md = None
  ∧ (∀ data, FsWriteFile (docTarget Sample.settings Sample.b_md) data
             ∉ trace w').
Proof.
  intros P host w w'. split; [by vm_compute|]. split; [by vm_compute|].
  intros data Hin. vm_compute in Hin.
  repeat (apply elem_of_cons in Hin as [Hin|Hin]; [discriminate|]).
  by apply elem_of_nil in Hin.
Qed.

(** ** Targets *)

Section Targets.
Context {X : Type} (host : Host X) {P : PathModule}.
Context (settings : GeneralPublishSettings).
Implicit Types (w : World X).

Lemma copyAssetToRepo_ok_disk (a : TFile) w w' :
  copyAssetToRepo host settings a w = (Ok (), w') →
  vault w' = vault w
  ∧ files (disk w') !! assetTarget settings a = vault_read (vault w) a.
Proof.
  unfold copyAssetToRepo, readBinary.
  unfold mbind at 1, M_bind at 1, read.
  destruct (vault_read (vault w) a) as [bytes|]; [|done].
  unfold mbind at 1, M_bind at 1, mkdir.
  destruct (h_fs host (OpMkdir _) _) as [[e|] x1]; [done|].
  unfold writeFile. simpl.
  destruct (h_fs host (OpWriteFile _ _) _) as [[e|] x2]; [done|].
  intros [= <-]. simpl. split; [done|]. apply lookup_insert_eq.
Qed.

(** After a successful [copyFileToRepo] the target of the note holds its
    text, unless one of its images was written to the same path. *)
Lemma copyFileToRepo_ok_disk (file : TFile) (text : string) w w' :
  copyFileToRepo host settings file w = (Ok (), w') →
  vault_read (vault w) file = Some text →
  (∀ imageName a, imageName ∈ imageNames text →
                  resolveImage (vault w) imageName = Some a →
                  assetTarget settings a ≠ docTarget settings file) →
  vault w' = vault w
  ∧ files (disk w') !! docTarget settings file = Some text.
Proof.
  intros Hrun Hread Hfree. revert Hrun.
  unfold copyFileToRepo, processContent.
  unfold mbind at 1, M_bind at 1, read. rewrite Hread, ret_bind.
  destruct (isAbsolute (gitRepoPath settings)); simpl; [|done].
  unfold mbind at 1, M_bind at 1, mkdir.
  destruct (h_fs host (OpMkdir _) _) as [[e|] x1]; [done|].
  unfold mbind at 1, M_bind at 1, writeFile. simpl.
  destruct (h_fs host (OpWriteFile _ _) _) as [[e|] x2]; [done|].
  intros Hrest.
  match type of Hrest with
  | _ _ _ _ _ ?w1 = _ =>
      pose proof (emits_copyReferencedAssets host settings (vault w) text file
                    w1 eq_refl) as (Hv & evs & Ht & Hq & Hd)
  end.
  rewrite Hrest in Hv, Ht, Hd. simpl in Hv, Ht, Hd. split; [done|].
  destruct (disk_steps_lookup _ _ _ Hd (docTarget settings file))
    as [-> | (data & Hin & _)].
  - simpl. apply lookup_insert_eq.
  - rewrite Forall_forall in Hq. apply Hq in Hin. simpl in Hin.
    destruct Hin as (imageName & a & Hn & Hres & Heq & _).
    exfalso. by eapply Hfree.
Qed.

(** C10: the target of a note and the target of an asset are functions
    of the filename alone; of two notes with one filename the one that
    is mirrored later is what the shared target holds, and the same goes
    for two assets. *)
Theorem same_name_same_target (f1 f2 : TFile) :
  name f1 = name f2 →
  docTarget settings f1 = docTarget settings f2
  ∧ assetTarget settings f1 = assetTarget settings f2
  ∧ (∀ w w1 w2 text2,
       copyFileToRepo host settings f1 w = (Ok (), w1) →
       copyFileToRepo host settings f2 w1 = (Ok (), w2) →
       vault_read (vault w) f2 = Some text2 →
       (∀ imageName a, imageName ∈ imageNames text2 →
                       resolveImage (vault w) imageName = Some a →
                       assetTarget settings a ≠ docTarget settings f2) →
       files (disk w2) !! docTarget settings f1 = Some text2)
  ∧ (∀ w w1 w2,
       copyAssetToRepo host settings f1 w = (Ok (), w1) →
       copyAssetToRepo host settings f2 w1 = (Ok (), w2) →
       files (disk w2) !! assetTarget settings f1 = vault_read (vault w) f2).
Proof.
  intros Hname.
  assert (docTarget settings f1 = docTarget settings f2) as Hdoc
    by (unfold docTarget; by rewrite Hname).
  assert (assetTarget settings f1 = assetTarget settings f2) as Hasset
    by (unfold assetTarget; by rewrite Hname).
  repeat split; try done.
  - intros w w1 w2 text2 H1 H2 Hread Hfree.
    assert (vault w1 = vault w) as Hv.
    { pose proof (emits_copyFileToRepo host settings (vault w) f1 w eq_refl)
        as [Hv _]. by rewrite H1 in Hv. }
    rewrite Hdoc. rewrite <- Hv in Hread, Hfree.
    by apply (copyFileToRepo_ok_disk f2 text2 w1 w2).
  - intros w w1 w2 H1 H2.
    apply copyAssetToRepo_ok_disk in H1 as [Hv _].
    apply copyAssetToRepo_ok_disk in H2 as [_ H2].
    by rewrite Hasset, H2, Hv.
Qed.

End Targets.

(** Two notes named [a.md] in different folders: both go to
    [/srv/site/content/a.md], and after both were mirrored the file holds
    the text of the second. *)
Lemma same_name_same_target_witness :
  let P := posix "/home/u" in
  let w := Sample.start Sample.twins (∅ : gmap string string) in
  let w1 := (copyFileToRepo Sample.git_host Sample.settings Sample.a_md w).2 in
  let w2 := (copyFileToRepo Sample.git_host Sample.settings Sample.other_a_md w1).2 in
  path Sample.a_md ≠ path Sample.other_a_md
  ∧ docTarget Sample.settings Sample.a_md = "/srv/site/content/a.md"
  ∧ docTarget Sample.settings Sample.other_a_md = "/srv/site/content/a.md"
  ∧ files (disk w2) !! docTarget Sample.settings Sample.a_md
    = Some Sample.other_a_text.
Proof.
  intros P w w1 w2.
  pose proof (same_name_same_target Sample.git_host Sample.settings
                Sample.a_md Sample.other_a_md eq_refl)
    as (Hdoc & _ & Hover & _).
  split; [done|]. split; [reflexivity|]. split; [by rewrite <- Hdoc|].
  apply (Hover w w1 w2 Sample.other_a_text);
    [reflexivity | reflexivity | reflexivity |].
  intros imageName a Hin. vm_compute in Hin. by apply elem_of_nil in Hin.
Defined.

(** ** The order of mirroring and committing *)

Lemma exec_calls_app (evs1 evs2 : list Event) :
  exec_calls (evs1 ++ evs2) = exec_calls evs1 ++ exec_calls evs2.
Proof. apply omap_app. Qed.

Lemma exec_calls_Exec (cmds : list string) : exec_calls (Exec <$> cmds) = cmds.
Proof. induction cmds as [|c l IH]; simpl; [done | by f_equal]. Qed.

Lemma Forall_Exec_no_fs (cmds : list string) :
  Forall (λ e, is_fs e = false) (Exec <$> cmds).
Proof. induction cmds; simpl; by constructor. Qed.

Section Order.
Context {X : Type} (host : Host X) {P : PathModule}.
Context (settings : GeneralPublishSettings).
Implicit Types (w : World X).

(** The mirroring loop runs no command. *)
Lemma forEach_copyFileToRepo_runs (l : list TFile) w :
  runs (λ e, is_exec e = false) w
       (forEach (copyFileToRepo host settings) l w).2.
Proof.
  apply (emits_forEach (vault w)); [|done]. intros file _.
  eapply emits_weaken; [|apply emits_copyFileToRepo].
  by intros [].
Qed.

(** [commitChanges] hands the shell the status query, and after it at
    most the staging and committing command. *)
Lemma commitChanges_trace w :
  ∃ r cmds x,
    commitChanges host settings w = (r, after_exec w cmds x)
    ∧ (cmds = [statusCommand settings]
       ∨ ∃ message, cmds = [statusCommand settings;
                            gitCommands settings message]).
Proof.
  rewrite commitChanges_cases.
  destruct (h_exec host (statusCommand settings) _ _) as [[out|e] x1].
  - destruct (Js.trim_is_empty out); [by eexists _, _, _; split; [|left]|].
    cbn zeta. destruct (h_exec host (gitCommands settings _) _ _) as [[?|e] x2];
      (eexists _, _, _; split; [done|]; right; by eexists).
  - by eexists _, _, _; split; [|left].
Qed.

(** C8: the trace of a run of [publishAllNotes] is a mirroring part
    without any command followed by a commit part without any file
    system call; the commit part hands the shell the status query once at
    most, and the staging and committing command after it at most; and
    with the toggle off the run has the same mirroring part, no command
    at all, and leaves the same target tree. *)
Theorem commit_after_mirroring w :
  ∃ mirror commit commit_off,
    let on := (publishAllNotes host settings w).2 in
    let off := (publishAllNotes host (with_autoCommit false settings) w).2 in
    trace on = trace w ++ mirror ++ commit
    ∧ Forall (λ e, is_exec e = false) mirror
    ∧ Forall (λ e, is_fs e = false) commit
    ∧ (exec_calls commit = []
       ∨ exec_calls commit = [statusCommand settings]
       ∨ ∃ message, exec_calls commit = [statusCommand settings;
                                         gitCommands settings message])
    ∧ (autoCommit settings = false → exec_calls commit = [])
    ∧ trace off = trace w ++ mirror ++ commit_off
    ∧ Forall (λ e, is_report e = true) commit_off
    ∧ disk off = disk on.
Proof.
  rewrite !publishAllNotes_cases.
  change (gitRepoPath (with_autoCommit false settings)) with (gitRepoPath settings).
  change (copyFileToRepo host (with_autoCommit false settings))
    with (copyFileToRepo host settings).
  change (autoCommit (with_autoCommit false settings)) with false.
  case_bool_decide.
  { exists [Notice "Please configure git repository path in settings"], [], [].
    simpl. repeat split; try done; try (by repeat constructor); try by left. }
  destruct (getPublishableFiles_reads w) as (r & -> & _).
  destruct r as [files|e].
  2: { exists (batch_error e), [], []. simpl.
       repeat split; try done; try (by repeat constructor); try by left. }
  cbn zeta. case_bool_decide.
  { exists [Notice no_files_notice], [], []. simpl.
    repeat split; try done; try (by repeat constructor); try by left. }
  pose proof (forEach_copyFileToRepo_runs files
                (logged [Notice (publishing_notice (length files))] w))
    as (_ & evs & Ht & Hq & _).
  destruct (forEach _ files _) as [[[]|e] w2]; simpl in Ht.
  2: { exists (Notice (publishing_notice (length files)) :: evs ++ batch_error e),
              [], [].
       simpl. rewrite Ht, !app_nil_r, <- !app_assoc. simpl.
       repeat split; try done; try (by repeat constructor); try by left.
       constructor; [done|]. apply Forall_app. split; [done|].
       by repeat constructor. }
  destruct (autoCommit settings) eqn:Hauto.
  - destruct (commitChanges_trace w2) as (r & cmds & x & -> & Hcmds).
    exists (Notice (publishing_notice (length files)) :: evs).
    destruct r as [b|e].
    + exists ((Exec <$> cmds)
              ++ [Notice (if b || negb true then publishedNotice (length files)
                          else copiedNotice (length files))]),
             [Notice (publishedNotice (length files))].
      simpl. rewrite Ht, <- !app_assoc. simpl.
      repeat split; try done; try by repeat constructor.
      * apply Forall_app. split; [apply Forall_Exec_no_fs | by repeat constructor].
      * rewrite exec_calls_app, exec_calls_Exec. simpl. rewrite app_nil_r.
        right. destruct Hcmds as [->|[m ->]]; [by left | right; by exists m].
    + exists ((Exec <$> cmds) ++ batch_error e),
             [Notice (publishedNotice (length files))].
      simpl. rewrite Ht, <- !app_assoc. simpl.
      repeat split; try done; try by repeat constructor.
      * apply Forall_app. split; [apply Forall_Exec_no_fs | by repeat constructor].
      * rewrite exec_calls_app, exec_calls_Exec. simpl. rewrite app_nil_r.
        right. destruct Hcmds as [->|[m ->]]; [by left | right; by exists m].
  - exists (Notice (publishing_notice (length files)) :: evs),
           [Notice (publishedNotice (length files))],
           [Notice (publishedNotice (length files))].
    simpl. rewrite Ht, <- !app_assoc. simpl.
    repeat split; try done; try (by repeat constructor); try by left.
Qed.

End Order.

(** ** Running the batch twice *)

Lemma foldl_apply_fs_files (evs : list Event) (d : Disk) (p : string) :
  files (foldl apply_fs d evs) !! p
  = match last_write p evs with
    | Some data => Some data
    | None => files d !! p
    end.
Proof.
  revert d. induction evs as [|e evs IH]; intros d; simpl; [done|].
  rewrite IH. destruct (last_write p evs); [done|].
  destruct e as [| | | |q data| |]; simpl; try done.
  case_bool_decide as Hq.
  - subst q. apply lookup_insert_eq.
  - by apply lookup_insert_ne.
Qed.

Lemma made_dirs_cons (e : Event) (evs : list Event) :
  made_dirs (e :: evs)
  = match e with
    | FsMkdir dir => {[dir]} ∪ made_dirs evs
    | _ => made_dirs evs
    end.
Proof. by destruct e. Qed.

Lemma foldl_apply_fs_dirs (evs : list Event) (d : Disk) :
  dirs (foldl apply_fs d evs) = made_dirs evs ∪ dirs d.
Proof.
  revert d. induction evs as [|e evs IH]; intros d; simpl.
  - unfold made_dirs. simpl. by rewrite (left_id_L ∅ (∪)).
  - rewrite IH, made_dirs_cons. destruct e; simpl; try done.
    by rewrite (assoc_L (∪)), (comm_L (∪) (made_dirs evs) {[p]}).
Qed.

(** Mirroring the same notes again leaves the target tree as it is. *)
Lemma foldl_apply_fs_twice (evs : list Event) (d : Disk) :
  foldl apply_fs (foldl apply_fs d evs) evs = foldl apply_fs d evs.
Proof.
  assert (∀ d1 d2 : Disk, files d1 = files d2 → dirs d1 = dirs d2 → d1 = d2)
    as Hext by (intros [] []; simpl; congruence).
  apply Hext.
  - apply map_eq. intros p. rewrite !foldl_apply_fs_files.
    by destruct (last_write p evs).
  - rewrite !foldl_apply_fs_dirs.
    by rewrite (assoc_L (∪)), (idemp_L (∪)).
Qed.

Section Mirrored.
Context {X : Type}.
Implicit Types (w : World X).

Lemma mirrored_nil w : mirrored [] w = w.
Proof. destruct w. unfold mirrored. simpl. by rewrite app_nil_r. Qed.

Lemma mirrored_app (evs1 evs2 : list Event) w :
  mirrored evs2 (mirrored evs1 w) = mirrored (evs1 ++ evs2) w.
Proof. unfold mirrored. simpl. by rewrite foldl_app, app_assoc. Qed.

End Mirrored.

Lemma asset_events_no_exec {P : PathModule} settings (v : Vault) (n : string) :
  exec_calls (asset_events settings v n) = [].
Proof.
  unfold asset_events. case_bool_decide; [done|].
  destruct (resolveImage v n) as [a|]; [|done].
  by destruct (vault_read v a).
Qed.

Lemma exec_calls_mjoin {A} (f : A → list Event) (l : list A) :
  (∀ x, exec_calls (f x) = []) → exec_calls (mjoin (f <$> l)) = [].
Proof.
  intros Hf. induction l as [|x l IH]; [done|].
  change (exec_calls (f x ++ mjoin (f <$> l)) = []).
  by rewrite exec_calls_app, Hf, IH.
Qed.

Lemma file_events_no_exec {P : PathModule} settings (v : Vault) (f : TFile) :
  exec_calls (file_events settings v f) = [].
Proof.
  unfold file_events. destruct (vault_read v f) as [text|]; [|done].
  rewrite exec_calls_app. simpl. apply exec_calls_mjoin.
  apply asset_events_no_exec.
Qed.

Section Twice.
Context {X : Type} (host : Host X) {P : PathModule}.
Context (settings : GeneralPublishSettings).
Context (Hfs : fs_accepts host) (Hgit : git_like host settings).
Implicit Types (w : World X).

Lemma mkdir_accepting (dir : string) w :
  mkdir host dir w = (Ok (), mirrored [FsMkdir dir] w).
Proof. unfold mkdir. by rewrite Hfs. Qed.

Lemma writeFile_accepting (p data : string) w :
  writeFile host p data w = (Ok (), mirrored [FsWriteFile p data] w).
Proof. unfold writeFile. by rewrite Hfs. Qed.

Lemma copyAssetToRepo_accepting (a : TFile) w :
  copyAssetToRepo host settings a w =
  match vault_read (vault w) a with
  | Some bytes =>
      (Ok (), mirrored [FsMkdir (assetsDir settings);
                        FsWriteFile (assetTarget settings a) bytes] w)
  | None => (Throw ("File not found: " +:+ path a), w)
  end.
Proof.
  unfold copyAssetToRepo, readBinary. unfold mbind at 1, M_bind at 1, read.
  destruct (vault_read (vault w) a) as [bytes|]; [|done].
  rewrite (bind_ok _ _ _ _ _ (mkdir_accepting _ _)).
  by rewrite writeFile_accepting, mirrored_app.
Qed.

Lemma copyReferencedAsset_accepting (imageName : string) w :
  copyReferencedAsset host settings imageName w
  = (Ok (), mirrored (asset_events settings (vault w) imageName) w).
Proof.
  unfold copyReferencedAsset, asset_events.
  case_bool_decide; [by rewrite mirrored_nil|].
  destruct (resolveImage (vault w) imageName) as [a|]; [|done].
  unfold try_catch. rewrite copyAssetToRepo_accepting.
  by destruct (vault_read (vault w) a).
Qed.

Lemma copyReferencedAssets_accepting (names : list string) w :
  forEach (copyReferencedAsset host settings) names w
  = (Ok (), mirrored (mjoin (asset_events settings (vault w) <$> names)) w).
Proof.
  revert w. induction names as [|n names IH]; intros w; simpl.
  - by rewrite mirrored_nil.
  - rewrite (bind_ok _ _ _ _ _ (copyReferencedAsset_accepting n w)).
    by rewrite IH, mirrored_app.
Qed.

Lemma copyFileToRepo_accepting (file : TFile) w :
  isAbsolute (gitRepoPath settings) = true →
  copyFileToRepo host settings file w =
  match vault_read (vault w) file with
  | Some _ => (Ok (), mirrored (file_events settings (vault w) file) w)
  | None => (Throw ("File not found: " +:+ path file), w)
  end.
Proof.
  intros Habs. unfold copyFileToRepo, processContent, file_events.
  unfold mbind at 1, M_bind at 1, read.
  destruct (vault_read (vault w) file) as [text|]; [|done].
  rewrite ret_bind, Habs. simpl.
  rewrite (bind_ok _ _ _ _ _ (mkdir_accepting _ _)).
  rewrite (bind_ok _ _ _ _ _ (writeFile_accepting _ _ _)).
  unfold copyReferencedAssets. rewrite copyReferencedAssets_accepting.
  by rewrite !mirrored_app.
Qed.

Lemma forEach_copyFileToRepo_accepting (fs : list TFile) w :
  isAbsolute (gitRepoPath settings) = true →
  Forall (λ f, is_Some (vault_read (vault w) f)) fs →
  forEach (copyFileToRepo host settings) fs w
  = (Ok (), mirrored (mjoin (file_events settings (vault w) <$> fs)) w).
Proof.
  intros Habs. revert w. induction fs as [|f fs IH]; intros w Hread; simpl.
  - by rewrite mirrored_nil.
  - apply Forall_cons in Hread as [[c Hc] Hread].
    pose proof (copyFileToRepo_accepting f w Habs) as Hf. rewrite Hc in Hf.
    rewrite (bind_ok _ _ _ _ _ Hf). rewrite IH by done.
    by rewrite mirrored_app.
Qed.

Lemma collectPublishable_select (fs : list TFile) w :
  collectPublishable fs w = (select_publishable (vault w) fs, w).
Proof.
  induction fs as [|file fs IH]; simpl; [done|].
  unfold mbind at 1, M_bind at 1, shouldPublishFile.
  unfold mbind at 1, M_bind at 1, read.
  destruct (vault_read (vault w) file) as [c|]; [|done]. simpl.
  unfold mbind at 1, M_bind at 1. rewrite IH.
  by destruct (select_publishable (vault w) fs).
Qed.

Lemma select_publishable_readable (v : Vault) (fs l : list TFile) :
  select_publishable v fs = Ok l → Forall (λ f, is_Some (vault_read v f)) l.
Proof.
  revert l. induction fs as [|file fs IH]; intros l; simpl.
  - intros [= <-]. constructor.
  - destruct (vault_read v file) as [c|] eqn:Hc; [|done].
    destruct (select_publishable v fs) as [rest|]; [|done].
    intros [= <-]. specialize (IH _ eq_refl).
    destruct (shouldPublish c); [|done]. constructor; [by rewrite Hc | done].
Qed.

(** The commit step on a healthy repository: it ends in a state where
    the status of the tree is blank, and when the status was blank to
    begin with it only queried it. *)
Lemma commitChanges_git_like w :
  ∃ b cmds x,
    commitChanges host settings w = (Ok b, after_exec w cmds x)
    ∧ status_blank host settings (disk w) x = true
    ∧ (cmds = [statusCommand settings]
       ∨ ∃ message, cmds = [statusCommand settings;
                            gitCommands settings message])
    ∧ (status_blank host settings (disk w) (ext w) = true →
       b = false ∧ cmds = [statusCommand settings] ∧ x = ext w).
Proof.
  destruct Hgit as [Hstatus Hcommit].
  rewrite commitChanges_cases. unfold status_blank in *.
  destruct (Hstatus (disk w) (ext w)) as [out Hout]. rewrite Hout.
  destruct (Js.trim_is_empty out) eqn:Hblank.
  - exists false, [statusCommand settings], (ext w).
    rewrite Hout. repeat split; try done. by left.
  - cbn zeta.
    destruct (Hcommit (message_at host settings (ext w)) (disk w) (ext w))
      as (out2 & x' & Hrun & Hclean); [by rewrite Hout|].
    rewrite Hrun. eexists true, _, x'. repeat split; try done.
    right. by eexists.
Qed.

End Twice.

Lemma last_cons_app_two {A} (a x y : A) (l : list A) :
  last (a :: l ++ [x; y]) = Some y.
Proof.
  change (a :: l ++ [x; y]) with ((a :: l) ++ [x] ++ [y]).
  rewrite app_assoc. apply last_snoc.
Qed.

Section Idempotence.
Context {X : Type} (host : Host X) {P : PathModule}.
Context (settings : GeneralPublishSettings).
Context (Hfs : fs_accepts host) (Hgit : git_like host settings).
Implicit Types (w : World X).

(** One run of the batch where nothing is rejected: the target tree
    follows the plan of the vault; a run that reaches the commit step
    ends in a state where the status of the tree is blank; a run that
    does not reach it runs no command; and a run that starts where the
    status of the mirrored tree is blank runs no command but the status
    query and reports that there was nothing to commit. *)
Lemma publishAllNotes_shape w :
  let plan := batch_plan settings (vault w) in
  let d := foldl apply_fs (disk w) plan in
  ∃ x evs,
    publishAllNotes host settings w
    = (Ok (), mkWorld (vault w) d x (trace w ++ evs))
    ∧ (reaches_commit settings (vault w) = true →
       status_blank host settings d x = true)
    ∧ (reaches_commit settings (vault w) = false → exec_calls evs = [])
    ∧ (reaches_commit settings (vault w) = true →
       status_blank host settings d (ext w) = true →
       exec_calls evs = [statusCommand settings]
       ∧ ∀ files, select_publishable (vault w) (getMarkdownFiles (vault w))
                  = Ok files →
                  last evs = Some (Notice (copiedNotice (length files)))).
Proof.
  intros plan d. subst d plan.
  rewrite publishAllNotes_cases. unfold batch_plan, reaches_commit.
  case_bool_decide as Hroot.
  { exists (ext w), [Notice "Please configure git repository path in settings"].
    rewrite !andb_false_r. simpl. by repeat split. }
  unfold getPublishableFiles. rewrite collectPublishable_select.
  destruct (select_publishable _ _) as [files|e] eqn:Hsel.
  2: { exists (ext w), (batch_error e). rewrite !andb_false_r. by repeat split. }
  cbn zeta. case_bool_decide as Hlen.
  { exists (ext w), [Notice no_files_notice].
    destruct files; [|done]. rewrite !andb_false_r.
    destruct (isAbsolute _); by repeat split. }
  destruct (isAbsolute (gitRepoPath settings)) eqn:Habs.
  2: { destruct files as [|file files]; [done|].
       set (w0 := logged [Notice (publishing_notice (length (file :: files)))] w).
       destruct (copyFileToRepo_relative host settings file w0 Habs)
         as (e & Hthrow & _).
       rewrite (forEach_first_throws _ _ _ _ _ _ Hthrow).
       exists (ext w),
              (Notice (publishing_notice (length (file :: files)))
               :: batch_error e).
       rewrite !andb_false_r. unfold logged. simpl.
       rewrite <- app_assoc. by repeat split. }
  assert (match files with [] => false | _ :: _ => true end = true) as Hsome
    by (by destruct files).
  rewrite Hsome.
  set (n := length files) in *.
  set (w0 := logged [Notice (publishing_notice n)] w).
  set (plan := mjoin (file_events settings (vault w) <$> files)).
  assert (forEach (copyFileToRepo host settings) files w0
          = (Ok (), mirrored plan w0)) as ->.
  { apply forEach_copyFileToRepo_accepting; try done.
    by eapply select_publishable_readable. }
  assert (exec_calls plan = []) as Hplan
    by (apply exec_calls_mjoin; apply file_events_no_exec).
  destruct (autoCommit settings) eqn:Hauto.
  - destruct (commitChanges_git_like host settings Hgit (mirrored plan w0))
      as (b & cmds & x & -> & Hclean & Hcmds & Hblank).
    exists x,
      (Notice (publishing_notice n) :: plan
       ++ (Exec <$> cmds)
       ++ [Notice (if b || negb true then publishedNotice n
                   else copiedNotice n)]).
    split; [|split; [|split]].
    + unfold logged, after_exec, mirrored, w0. simpl.
      by rewrite <- !app_assoc.
    + intros _. exact Hclean.
    + done.
    + intros _ Hstart. destruct (Hblank Hstart) as (-> & -> & ->).
      split.
      * simpl. by rewrite exec_calls_app, Hplan.
      * intros files' [= <-]. simpl.
        apply last_cons_app_two.
  - exists (ext w),
      (Notice (publishing_notice n) :: plan ++ [Notice (publishedNotice n)]).
    split; [|split; [|split]]; try done.
    + unfold logged, mirrored, w0. simpl. by rewrite <- !app_assoc.
    + intros _. simpl. by rewrite exec_calls_app, Hplan.
Qed.

(** C7: where the file system rejects nothing and the shell behaves like
    git on a healthy repository, a second run of the batch on the same
    vault leaves the target tree exactly as the first run left it and
    runs no command but, at most, the status query; when the runs reach
    the commit step the second one queries the status, makes no commit
    and ends with the notice that there were no changes to commit. *)
Theorem publish_twice_no_changes w :
  let w1 := (publishAllNotes host settings w).2 in
  let w2 := (publishAllNotes host settings w1).2 in
  disk w2 = disk w1
  ∧ ∃ evs,
      trace w2 = trace w1 ++ evs
      ∧ (exec_calls evs = [] ∨ exec_calls evs = [statusCommand settings])
      ∧ (autoCommit settings = true →
         gitRepoPath settings ≠ "" →
         isAbsolute (gitRepoPath settings) = true →
         ∀ publishableFiles,
           (getPublishableFiles w).1 = Ok publishableFiles →
           publishableFiles ≠ [] →
           exec_calls evs = [statusCommand settings]
           ∧ last evs = Some (Notice (copiedNotice (length publishableFiles)))).
Proof.
  intros w1 w2.
  destruct (publishAllNotes_shape w) as (x1 & evs1 & Hrun1 & Hclean1 & _).
  assert (w1 = mkWorld (vault w)
                 (foldl apply_fs (disk w) (batch_plan settings (vault w)))
                 x1 (trace w ++ evs1)) as Hw1
    by (unfold w1; by rewrite Hrun1).
  destruct (publishAllNotes_shape w1) as (x2 & evs2 & Hrun2 & _ & Hnone & Hblank).
  assert (vault w1 = vault w) as Hv by (by rewrite Hw1).
  assert (foldl apply_fs (disk w1) (batch_plan settings (vault w1)) = disk w1)
    as Hdisk by (rewrite Hv, Hw1; simpl; apply foldl_apply_fs_twice).
  rewrite Hdisk in Hrun2, Hblank. rewrite Hv in Hrun2, Hnone, Hblank.
  split; [unfold w2; by rewrite Hrun2|].
  exists evs2. split; [unfold w2; by rewrite Hrun2|].
  destruct (reaches_commit settings (vault w)) eqn:Hreach.
  - assert (status_blank host settings (disk w1) (ext w1) = true) as Hstart
      by (rewrite Hw1; simpl; by apply Hclean1).
    destruct (Hblank eq_refl Hstart) as [Hcalls Hlast].
    split; [by right|]. intros _ _ _ files Hfiles _. split; [done|].
    apply Hlast. unfold getPublishableFiles in Hfiles.
    by rewrite collectPublishable_select in Hfiles.
  - split; [left; by apply Hnone|].
    intros Hauto Hroot Habs files Hfiles Hne. exfalso.
    unfold getPublishableFiles in Hfiles.
    rewrite collectPublishable_select in Hfiles. simpl in Hfiles.
    unfold reaches_commit in Hreach.
    rewrite Hauto, Habs, Hfiles, bool_decide_eq_false_2 in Hreach by done.
    by destruct files.
Qed.

End Idempotence.

Lemma sample_fs_accepts : fs_accepts Sample.git_host.
Proof. by intros op x. Qed.

Lemma sample_git_status (d : Disk) (head : gmap string string) :
  h_exec Sample.git_host (statusCommand Sample.settings) d head
  = (inl (if bool_decide (files d = head) then ""
          else "?? content/" +:+ Js.nl), head).
Proof. reflexivity. Qed.

Lemma sample_git_commit (message : string) (d : Disk) (head : gmap string string) :
  files d ≠ head →
  h_exec Sample.git_host (gitCommands Sample.settings message) d head
  = (inl "1 file changed", files d).
Proof.
  intros Hdirty.
  assert (Js.includes "git add ." (gitCommands Sample.settings message) = true)
    as Hadd.
  { apply includes_true.
    exists ("cd " +:+ Js.dq +:+ "/srv/site" +:+ Js.dq +:+ " && "),
           (" && git commit -m " +:+ Js.dq +:+ message +:+ Js.dq).
    reflexivity. }
  unfold Sample.git_host. cbn [h_exec]. rewrite Hadd. cbn [negb].
  by rewrite bool_decide_eq_false_2.
Qed.

Lemma sample_git_like : git_like Sample.git_host Sample.settings.
Proof.
  split.
  - intros d x. eexists. apply sample_git_status.
  - intros message d x. unfold status_blank. rewrite sample_git_status.
    case_bool_decide as Hhead; [done|]. intros _.
    eexists _, _. split; [by apply sample_git_commit|].
    rewrite sample_git_status. by rewrite bool_decide_eq_true_2.
Qed.

(** Two notes and their images, published twice into an empty tree: the
    second run only queries the status. *)
Lemma publish_twice_no_changes_witness :
  let P := posix "/home/u" in
  let w := Sample.start Sample.corpus (∅ : gmap string string) in
  let w1 := (publishAllNotes Sample.git_host Sample.settings w).2 in
  let w2 := (publishAllNotes Sample.git_host Sample.settings w1).2 in
  disk w2 = disk w1
  ∧ ∃ evs,
      trace w2 = trace w1 ++ evs
      ∧ exec_calls evs = [statusCommand Sample.settings]
      ∧ last evs = Some (Notice "Copied 2 notes (no changes to commit)").
Proof.
  intros P w w1 w2.
  pose proof sample_fs_accepts as Hfs. pose proof sample_git_like as Hgit.
  destruct (publish_twice_no_changes Sample.git_host Sample.settings Hfs Hgit w)
    as (Hdisk & evs & Htrace & _ & Hcommit).
  split; [exact Hdisk|]. exists evs. split; [exact Htrace|].
  apply (Hcommit eq_refl) with (publishableFiles := [Sample.a_md; Sample.b_md]);
    [done | reflexivity | reflexivity | done].
Defined.

(** * Further properties *)

(** ** Selection *)

Lemma getFiles_entry (v : Vault) (f : TFile) :
  f ∈ getFiles v ↔ ∃ c, EFile f c ∈ v.
Proof.
  unfold getFiles. rewrite list_elem_of_omap. split.
  - intros ([g c|p] & Hin & [= ->]). by exists c.
  - intros [c Hin]. by exists (EFile f c).
Qed.

(** In a well-formed vault a file is read at its own entry. *)
Lemma vault_read_wf (v : Vault) (f : TFile) (c : string) :
  vault_wf v → EFile f c ∈ v → vault_read v f = Some c.
Proof.
  unfold vault_wf, vault_read, getAbstractFileByPath.
  induction v as [|e v IH]; simpl; intros Hwf Hin.
  - by apply elem_of_nil in Hin.
  - apply NoDup_cons in Hwf as [Hfresh Hwf].
    apply elem_of_cons in Hin as [<-|Hin].
    + simpl. by rewrite bool_decide_eq_true_2.
    + rewrite bool_decide_eq_false_2; [by apply IH|].
      intros Heq. apply Hfresh. rewrite Heq.
      apply list_elem_of_fmap. by exists (EFile f c).
Qed.

Lemma getMarkdownFiles_files (v : Vault) (f : TFile) :
  f ∈ getMarkdownFiles v → f ∈ getFiles v.
Proof. unfold getMarkdownFiles. by intros [_ ?]%list_elem_of_filter. Qed.

Lemma select_publishable_filter (v : Vault) (fs : list TFile) :
  Forall (λ f, is_Some (vault_read v f)) fs →
  select_publishable v fs
  = Ok (filter (λ f, publishable_in v f = true) fs).
Proof.
  induction 1 as [|f fs [c Hc] _ IH]; simpl; [done|].
  rewrite Hc, IH. unfold publishable_in at 2.
  destruct (shouldPublish c) eqn:Hpub.
  - rewrite filter_cons_True; [done|]. unfold publishable_in. by rewrite Hc.
  - rewrite filter_cons_False; [done|]. unfold publishable_in.
    by rewrite Hc, Hpub.
Qed.

(** X1: in a well-formed vault [getPublishableFiles] never rejects,
    leaves the world as it is, and answers the markdown files whose text
    carries the flag, in the order of the vault. *)
Theorem getPublishableFiles_selects {X} (w : World X) :
  vault_wf (vault w) →
  getPublishableFiles w
  = (Ok (filter (λ f, publishable_in (vault w) f = true)
                (getMarkdownFiles (vault w))), w).
Proof.
  intros Hwf. unfold getPublishableFiles. rewrite collectPublishable_select.
  f_equal. apply select_publishable_filter. apply Forall_forall.
  intros f [c Hc]%getMarkdownFiles_files%getFiles_entry.
  exists c. by apply vault_read_wf.
Qed.

(** Of the three notes of the sample vault the two flagged ones are
    selected. *)
Lemma getPublishableFiles_selects_witness :
  getPublishableFiles (Sample.start Sample.corpus ())
  = (Ok [Sample.a_md; Sample.b_md], Sample.start Sample.corpus ()).
Proof.
  refine (getPublishableFiles_selects (Sample.start Sample.corpus ()) _).
  apply (bool_decide_unpack (NoDup (entry_path <$> Sample.corpus))).
  vm_compute. exact I.
Defined.

(** ** Resolution *)

Lemma getAbstractFileByPath_Some (v : Vault) (p : string) (e : Entry) :
  getAbstractFileByPath v p = Some e → e ∈ v ∧ entry_path e = p.
Proof.
  unfold getAbstractFileByPath. intros [Hin Hp]%find_some.
  split; [by apply list_elem_of_In | by apply bool_decide_eq_true in Hp].
Qed.

Lemma name_matches_true (imageName : string) (f : TFile) :
  name_matches imageName f = true ↔
  name f = imageName ∨ name f = Js.pop (Js.split "/" imageName)
  ∨ path f = imageName.
Proof.
  unfold name_matches. rewrite !orb_true_iff, !bool_decide_eq_true. tauto.
Qed.

(** X3: the file an image name resolves to is a file of the vault whose
    path is the name, or whose filename is the name or its last segment;
    and the name resolves to nothing exactly when the vault has no such
    file. *)
Theorem resolveImage_sound_complete (v : Vault) (imageName : string) :
  (∀ f, resolveImage v imageName = Some f →
        f ∈ getFiles v
        ∧ (name f = imageName
           ∨ name f = Js.pop (Js.split "/" imageName)
           ∨ path f = imageName))
  ∧ (resolveImage v imageName = None ↔
     ∀ f, f ∈ getFiles v →
          name f ≠ imageName
          ∧ name f ≠ Js.pop (Js.split "/" imageName)
          ∧ path f ≠ imageName).
Proof.
  assert (Hfind : ∀ f, find (name_matches imageName) (getFiles v) = Some f →
            f ∈ getFiles v
            ∧ (name f = imageName
               ∨ name f = Js.pop (Js.split "/" imageName)
               ∨ path f = imageName)).
  { intros f [Hin Hm]%find_some. split; [by apply list_elem_of_In|].
    by apply name_matches_true. }
  assert (Hnone : find (name_matches imageName) (getFiles v) = None ↔
            ∀ f, f ∈ getFiles v →
                 name f ≠ imageName
                 ∧ name f ≠ Js.pop (Js.split "/" imageName)
                 ∧ path f ≠ imageName).
  { split.
    - intros Hno f Hin. apply list_elem_of_In in Hin.
      pose proof (find_none _ _ Hno f Hin) as Hm.
      assert (¬ (name f = imageName
                 ∨ name f = Js.pop (Js.split "/" imageName)
                 ∨ path f = imageName)) as Hnot
        by (rewrite <- name_matches_true; congruence).
      tauto.
    - intros Hall. apply find_none_all. intros f Hin.
      destruct (name_matches imageName f) eqn:Hm; [|done].
      apply name_matches_true in Hm. destruct (Hall f Hin) as (? & ? & ?).
      tauto. }
  unfold resolveImage.
  destruct (getAbstractFileByPath v imageName) as [[g c|p]|] eqn:E;
    [|done..].
  apply getAbstractFileByPath_Some in E as [Hin Hpath]. simpl in Hpath.
  assert (g ∈ getFiles v) as Hg by (apply getFiles_entry; by exists c).
  split.
  - intros f [= <-]. split; [done|]. by right; right.
  - split; [done|]. intros Hall. destruct (Hall g Hg) as (_ & _ & Hne). done.
Qed.

(** *** The last segment of a name *)

Lemma append_empty_r (s : string) : s +:+ "" = s.
Proof. induction s as [|c s IH]; simpl; [done | by rewrite IH]. Qed.

Lemma split_go_plain (sep : ascii) (cur s : string) :
  has_char sep s = false → Js.split_go sep cur s = [cur +:+ s].
Proof.
  revert cur. induction s as [|c s IH]; intros cur; simpl.
  - intros _. by rewrite append_empty_r.
  - intros [Hc Hs]%orb_false_iff. rewrite Hc, IH by done.
    by rewrite append_assoc.
Qed.

Lemma split_go_last (sep : ascii) (cur s : string) :
  is_Some (last (Js.split_go sep cur s)).
Proof.
  revert cur. induction s as [|c s IH]; intros cur; simpl; [by eexists|].
  destruct (Ascii.eqb c sep); [|apply IH].
  rewrite last_cons. destruct (IH "") as [x ->]. by eexists.
Qed.

Lemma split_go_after_sep (sep : ascii) (cur a b : string) :
  last (Js.split_go sep cur (a +:+ String sep b))
  = last (Js.split_go sep "" b).
Proof.
  revert cur. induction a as [|c a IH]; intros cur; simpl.
  - rewrite Ascii.eqb_refl, last_cons.
    by destruct (split_go_last sep "" b) as [x ->].
  - destruct (Ascii.eqb c sep); [|apply IH].
    rewrite last_cons, IH. by destruct (split_go_last sep "" b) as [x ->].
Qed.

(** [(dir + "/" + base).split("/").pop()] is [base] when [base] holds no
    slash. *)
Lemma split_pop_base (dir base : string) :
  has_char "/" base = false →
  Js.pop (Js.split "/" (dir +:+ "/" +:+ base)) = base.
Proof.
  intros Hbase. unfold Js.pop, Js.split.
  change (dir +:+ "/" +:+ base) with (dir +:+ String "/" base).
  by rewrite split_go_after_sep, split_go_plain.
Qed.

Lemma resolveImage_in_vault (v : Vault) (imageName : string) (g : TFile) :
  resolveImage v imageName = Some g → g ∈ getFiles v.
Proof.
  unfold resolveImage.
  destruct (getAbstractFileByPath v imageName) as [[h c|p]|] eqn:E.
  - intros [= <-]. apply getAbstractFileByPath_Some in E as [Hin _].
    apply getFiles_entry. by exists c.
  - intros [Hin _]%find_some. by apply list_elem_of_In.
  - intros [Hin _]%find_some. by apply list_elem_of_In.
Qed.

Lemma resolveImage_None_find (v : Vault) (imageName : string) :
  resolveImage v imageName = None →
  find (name_matches imageName) (getFiles v) = None.
Proof.
  unfold resolveImage.
  by destruct (getAbstractFileByPath v imageName) as [[h c|p]|].
Qed.

(** X12: an image referenced by a path, in whatever folder, is found as
    soon as some file of the vault has the filename the path ends in. *)
Theorem resolveImage_by_basename (v : Vault) (dir base : string) (f : TFile) :
  has_char "/" base = false →
  f ∈ getFiles v →
  name f = base →
  ∃ g, resolveImage v (dir +:+ "/" +:+ base) = Some g ∧ g ∈ getFiles v.
Proof.
  intros Hbase Hin Hname. set (imageName := dir +:+ "/" +:+ base).
  destruct (resolveImage v imageName) as [g|] eqn:E.
  - exists g. split; [done|]. by eapply resolveImage_in_vault.
  - apply resolveImage_None_find in E. apply list_elem_of_In in Hin.
    pose proof (find_none _ _ E f Hin) as Hm.
    assert (name_matches imageName f = true) as Hyes.
    { apply name_matches_true. right; left.
      unfold imageName. by rewrite split_pop_base. }
    congruence.
Qed.

(** The embed [![[old/attic/diagram.png]]] names no path of the sample
    vault, and is found by its filename. *)
Lemma resolveImage_by_basename_witness :
  ∃ g, resolveImage Sample.corpus ("old/attic" +:+ "/" +:+ "diagram.png")
       = Some g
       ∧ g ∈ getFiles Sample.corpus.
Proof.
  apply (resolveImage_by_basename Sample.corpus "old/attic" "diagram.png"
           Sample.pic1).
  - reflexivity.
  - apply (bool_decide_unpack (Sample.pic1 ∈ getFiles Sample.corpus)).
    vm_compute. exact I.
  - reflexivity.
Defined.

(** ** Extraction of image names *)

Lemma imageNames_match (s cap rest : string) :
  match_ref_here s = Some (cap, rest) →
  imageNames s = cap :: imageNames rest.
Proof.
  intros E. unfold imageNames at 1. simpl. rewrite E. f_equal.
  apply imageNames_from_enough. by eapply match_ref_here_shorter.
Qed.

Lemma imageNames_skip (c : ascii) (s : string) :
  match_ref_here (String c s) = None →
  imageNames (String c s) = imageNames s.
Proof. intros E. unfold imageNames at 1. cbn [imageNames_from]. by rewrite E. Qed.

Lemma match_ref_here_other (c : ascii) (s : string) :
  Ascii.eqb c "!" = false → match_ref_here (String c s) = None.
Proof.
  intros Hc%Ascii.eqb_neq.
  assert (∀ p, Js.strip_prefix (String "!" p) (String c s) = None) as Hno.
  { intros p. destruct (Js.strip_prefix _ _) as [r|] eqn:E; [|done].
    apply strip_prefix_Some in E. simpl in E. by injection E as -> _. }
  unfold match_ref_here, match_embed, match_image.
  by rewrite (Hno "[["), (Hno "[").
Qed.

Lemma span_not_app (c : ascii) (run rest : string) :
  has_char c run = false →
  span_not c (run +:+ String c rest) = (run, String c rest).
Proof.
  induction run as [|a run IH]; simpl.
  - intros _. by rewrite Ascii.eqb_refl.
  - intros [Ha Hrun]%orb_false_iff. by rewrite Ha, IH.
Qed.

Lemma class_then_app (c : ascii) (close run rest : string) :
  run ≠ "" → has_char c run = false →
  class_then c (String c close) (run +:+ String c close +:+ rest)
  = Some (run, rest).
Proof.
  intros Hne Hrun. unfold class_then.
  change (run +:+ String c close +:+ rest)
    with (run +:+ String c (close +:+ rest)).
  rewrite span_not_app by done. destruct run; [done|].
  change (String c (close +:+ rest)) with (String c close +:+ rest).
  by rewrite strip_prefix_app.
Qed.

(** X4: an embed [![[name]]] at the head of a text gives [name], and the
    search goes on right after it. *)
Theorem imageNames_embed (imageName rest : string) :
  imageName ≠ "" →
  has_char "]" imageName = false →
  imageNames ("![[" +:+ imageName +:+ "]]" +:+ rest)
  = imageName :: imageNames rest.
Proof.
  intros Hne Hplain. apply imageNames_match.
  unfold match_ref_here, match_embed. rewrite strip_prefix_app.
  cbn [mbind option_bind].
  assert (class_then "]" "]]" (imageName +:+ "]]" +:+ rest)
          = Some (imageName, rest)) as ->; [|done].
  by apply (class_then_app "]" "]").
Qed.

Lemma imageNames_embed_witness :
  imageNames ("![[" +:+ "diagram.png" +:+ "]]" +:+ " and text")
  = "diagram.png" :: imageNames " and text".
Proof. by apply imageNames_embed. Defined.

Lemma strip_prefix_head (a b : ascii) (p s : string) :
  a ≠ b → Js.strip_prefix (String a p) (String b s) = None.
Proof.
  intros Hne. destruct (Js.strip_prefix _ _) as [r|] eqn:E; [|done].
  apply strip_prefix_Some in E. simpl in E. by injection E as <- _.
Qed.

Lemma match_target_app (target rest : string) :
  target ≠ "" → has_char ")" target = false →
  match_target ("](" +:+ target +:+ ")" +:+ rest) = Some (target, rest).
Proof.
  intros Hne Hplain. unfold match_target. rewrite strip_prefix_app.
  cbn [mbind option_bind]. by apply (class_then_app ")" "").
Qed.

Lemma lazy_dot_then_target_app (alt target rest : string) :
  has_char "]" alt = false →
  has_char "010" alt = false → has_char "013" alt = false →
  target ≠ "" → has_char ")" target = false →
  lazy_dot_then_target (alt +:+ "](" +:+ target +:+ ")" +:+ rest)
  = Some (target, rest).
Proof.
  intros Hclose Hlf Hcr Hne Hplain.
  induction alt as [|c alt IH].
  - change ("" +:+ "](" +:+ target +:+ ")" +:+ rest)
      with (String "]" ("(" +:+ target +:+ ")" +:+ rest)).
    cbn [lazy_dot_then_target].
    change (String "]" ("(" +:+ target +:+ ")" +:+ rest))
      with ("](" +:+ target +:+ ")" +:+ rest).
    by rewrite match_target_app.
  - simpl in Hclose, Hlf, Hcr.
    apply orb_false_iff in Hclose as [Hc1 Hclose].
    apply orb_false_iff in Hlf as [Hc2 Hlf].
    apply orb_false_iff in Hcr as [Hc3 Hcr].
    change (String c alt +:+ "](" +:+ target +:+ ")" +:+ rest)
      with (String c (alt +:+ "](" +:+ target +:+ ")" +:+ rest)).
    cbn [lazy_dot_then_target].
    assert (match_target (String c (alt +:+ "](" +:+ target +:+ ")" +:+ rest))
            = None) as ->.
    { unfold match_target. rewrite strip_prefix_head; [done|].
      intros <-. by rewrite Ascii.eqb_refl in Hc1. }
    unfold is_line_terminator. rewrite Hc2, Hc3. simpl. by apply IH.
Qed.

Lemma match_embed_image (alt tail : string) :
  has_char "]" alt = false →
  match_embed ("![" +:+ alt +:+ "](" +:+ tail) = None.
Proof.
  intros Hclose. unfold match_embed.
  destruct (Js.strip_prefix "![[" _) as [r|] eqn:E; [|done].
  apply strip_prefix_Some in E. cbn [mbind option_bind].
  destruct alt as [|c alt]; simpl in E; [discriminate E|].
  injection E as -> <-. simpl in Hclose.
  unfold class_then. rewrite span_not_app by done. destruct alt; [done|].
  destruct (Js.strip_prefix "]]" _) as [r|] eqn:E; [|done].
  apply strip_prefix_Some in E. simpl in E. discriminate E.
Qed.

(** X5: a markdown image [![alt](target)] at the head of a text gives
    [target], whatever the alternative text, as long as that holds no
    closing bracket and no line break; the search goes on right after
    the closing parenthesis. *)
Theorem imageNames_image (alt target rest : string) :
  has_char "]" alt = false →
  has_char "010" alt = false → has_char "013" alt = false →
  target ≠ "" → has_char ")" target = false →
  imageNames ("![" +:+ alt +:+ "](" +:+ target +:+ ")" +:+ rest)
  = target :: imageNames rest.
Proof.
  intros Hclose Hlf Hcr Hne Hplain. apply imageNames_match.
  unfold match_ref_here. rewrite match_embed_image by done.
  unfold match_image. rewrite strip_prefix_app. cbn [mbind option_bind].
  by apply lazy_dot_then_target_app.
Qed.

Lemma imageNames_image_witness :
  imageNames ("![" +:+ "the plan" +:+ "](" +:+ "img/plan.png" +:+ ")"
              +:+ " end")
  = "img/plan.png" :: imageNames " end".
Proof. by apply imageNames_image. Defined.

Lemma class_then_nonempty (c : ascii) (close s cap rest : string) :
  class_then c close s = Some (cap, rest) → cap ≠ "".
Proof.
  unfold class_then. destruct (span_not c s) as [[|a run] rest0]; [done|].
  destruct (Js.strip_prefix close rest0); [|done]. by intros [= <- _].
Qed.

Lemma match_target_nonempty (s cap rest : string) :
  match_target s = Some (cap, rest) → cap ≠ "".
Proof.
  unfold match_target. destruct (Js.strip_prefix "](" s) as [r|]; [|done].
  cbn [mbind option_bind]. apply class_then_nonempty.
Qed.

Lemma lazy_dot_then_target_nonempty (s cap rest : string) :
  lazy_dot_then_target s = Some (cap, rest) → cap ≠ "".
Proof.
  induction s as [|c s IH]; [done|]. cbn [lazy_dot_then_target].
  destruct (match_target (String c s)) as [x|] eqn:E.
  - intros [= ->]. by eapply match_target_nonempty.
  - by destruct (is_line_terminator c).
Qed.

Lemma match_ref_here_nonempty (s cap rest : string) :
  match_ref_here s = Some (cap, rest) → cap ≠ "".
Proof.
  unfold match_ref_here, match_embed, match_image.
  destruct (Js.strip_prefix "![[" s) as [r|]; cbn [mbind option_bind].
  - destruct (class_then "]" "]]" r) as [x|] eqn:E.
    + intros [= ->]. by eapply class_then_nonempty.
    + destruct (Js.strip_prefix "![" s) as [r2|]; [|done].
      cbn [mbind option_bind]. apply lazy_dot_then_target_nonempty.
  - destruct (Js.strip_prefix "![" s) as [r2|]; [|done].
    cbn [mbind option_bind]. apply lazy_dot_then_target_nonempty.
Qed.

(** X6: no extracted image name is empty, so the [continue] of
    [copyReferencedAssets] is never taken: every reference found is
    looked up. *)
Theorem imageNames_nonempty (content : string) :
  Forall (λ imageName, imageName ≠ "") (imageNames content).
Proof.
  unfold imageNames. generalize (S (String.length content)).
  intros fuel. revert content.
  induction fuel as [|fuel IH]; intros s; simpl; [constructor|].
  destruct (match_ref_here s) as [[cap rest]|] eqn:E.
  - constructor; [by eapply match_ref_here_nonempty | apply IH].
  - destruct s; [constructor | apply IH].
Qed.

(** X7: text that holds no exclamation mark holds no image reference,
    and in front of other text it changes nothing of what is found
    there. *)
Theorem imageNames_plain_prefix (plain s : string) :
  has_char "!" plain = false →
  imageNames (plain +:+ s) = imageNames s.
Proof.
  induction plain as [|c plain IH]; [done|]. simpl.
  intros [Hc Hplain]%orb_false_iff.
  rewrite imageNames_skip by by apply match_ref_here_other.
  by apply IH.
Qed.

Lemma imageNames_plain_prefix_witness :
  imageNames ("See the figure: " +:+ "![[diagram.png]]")
  = imageNames "![[diagram.png]]".
Proof. by apply imageNames_plain_prefix. Defined.

(** ** The flag mutation, continued *)

(** The closing delimiter cannot start inside the captured frontmatter
    and end in the inserted flag line. *)
Lemma strip_close_insert (c : ascii) (b t1 t2 : string) :
  Js.strip_prefix fm_close (String c (b +:+ fm_close +:+ t1)) = None →
  Js.strip_prefix fm_close
    (String c (b +:+ Js.nl +:+ "publish: true" +:+ fm_close +:+ t2)) = None.
Proof.
  intros Hold.
  destruct (Js.strip_prefix fm_close (String c (b +:+ Js.nl +:+ _)))
    as [r|] eqn:E; [|done].
  exfalso. apply strip_prefix_Some in E.
  assert (∃ r', String c (b +:+ fm_close +:+ t1) = fm_close +:+ r')
    as [r' Hr'].
  { unfold fm_close, Js.nl in *. simpl in E |- *.
    injection E as -> E.
    destruct b as [|c2 b]; simpl in E |- *; [discriminate E|].
    injection E as -> E.
    destruct b as [|c3 b]; simpl in E |- *; [discriminate E|].
    injection E as -> E.
    destruct b as [|c4 b]; simpl in E |- *; [discriminate E|].
    injection E as -> E. by eexists. }
  apply strip_prefix_Some in Hr'. congruence.
Qed.

Lemma find_literal_cons (d : string) (c : ascii) (s : string) :
  Js.find_literal d (String c s)
  = match Js.strip_prefix d (String c s) with
    | Some r => Some ("", r)
    | None =>
        match Js.find_literal d s with
        | Some (b, r) => Some (String c b, r)
        | None => None
        end
    end.
Proof. reflexivity. Qed.

Lemma find_close_insert (body r0 r : string) :
  Js.find_literal fm_close (body +:+ fm_close +:+ r0) = Some (body, r0) →
  Js.find_literal fm_close
    (body +:+ Js.nl +:+ "publish: true" +:+ fm_close +:+ r)
  = Some (body +:+ Js.nl +:+ "publish: true", r).
Proof.
  induction body as [|c body IH].
  - intros _. reflexivity.
  - change (String c body +:+ fm_close +:+ r0)
      with (String c (body +:+ fm_close +:+ r0)).
    change (String c body +:+ Js.nl +:+ "publish: true" +:+ fm_close +:+ r)
      with (String c (body +:+ Js.nl +:+ "publish: true" +:+ fm_close +:+ r)).
    change (String c body +:+ Js.nl +:+ "publish: true")
      with (String c (body +:+ Js.nl +:+ "publish: true")).
    rewrite !find_literal_cons.
    destruct (Js.strip_prefix fm_close (String c (body +:+ fm_close +:+ r0)))
      as [x|] eqn:E; [done|].
    rewrite (strip_close_insert c body r0 r E).
    destruct (Js.find_literal fm_close (body +:+ fm_close +:+ r0))
      as [[b1 r1]|] eqn:F; [|done].
    intros [= -> ->]. by rewrite IH.
Qed.

(** X8: once [addPublishFlag] has rewritten a note, the note carries the
    flag for [shouldPublishFile], whether it had a frontmatter block (free
    of dollar signs) or none. *)
Theorem addPublishFlag_makes_publishable (content : string) :
  (∀ m, match_frontmatter content = Some m → has_char "$" (group1 m) = false) →
  shouldPublish (addPublishFlagText content) = true.
Proof.
  intros Hplain.
  destruct (match_frontmatter content) as [m|] eqn:E.
  - rewrite (addPublishFlagText_plain content m E (Hplain m eq_refl)).
    revert E. unfold match_frontmatter, lazy_until.
    destruct (Js.strip_prefix fm_open content) as [r|] eqn:Hopen; [|done].
    destruct (Js.find_literal fm_close r) as [[body rest]|] eqn:F; [|done].
    intros [= <-]. cbn [group1 m_captures m_after].
    pose proof (find_literal_Some _ _ _ _ F) as [-> _].
    unfold shouldPublish, match_frontmatter, lazy_until.
    rewrite strip_prefix_app.
    change (body +:+ Js.nl +:+ "publish: true" +:+ fm_close +:+ rest)
      with (body +:+ Js.nl +:+ "publish: true" +:+ fm_close +:+ rest).
    rewrite (find_close_insert body rest rest F).
    cbn [group1 m_captures]. apply orb_true_iff. left.
    apply includes_true. exists (body +:+ Js.nl), "".
    by rewrite append_assoc, append_empty_r.
  - rewrite (addPublishFlagText_fresh content E). reflexivity.
Qed.

(** A note with a title in its frontmatter. *)
Lemma addPublishFlag_makes_publishable_witness :
  shouldPublish
    (addPublishFlagText (Sample.text ["---"; "title: A"; "---"; "Body"]))
  = true.
Proof.
  apply addPublishFlag_makes_publishable.
  intros m E. vm_compute in E. injection E as <-. reflexivity.
Defined.

(** ** The batch, continued *)

Lemma disk_steps_idle (evs : list Event) (d : Disk) : disk_steps evs d d.
Proof.
  induction evs as [|e evs IH]; [constructor|].
  by apply disk_steps_rejected.
Qed.

Lemma runs_idle {X} (Q : Event → Prop) (w w' : World X) (evs : list Event) :
  vault w' = vault w → disk w' = disk w → trace w' = trace w ++ evs →
  Forall Q evs → runs Q w w'.
Proof.
  intros Hv Hd Ht Hq. split; [done|]. exists evs.
  rewrite Hd. repeat split; [done | done | apply disk_steps_idle].
Qed.

Lemma select_publishable_sound (v : Vault) (fs l : list TFile) :
  select_publishable v fs = Ok l →
  ∀ f, f ∈ l → f ∈ fs ∧ publishable_in v f = true.
Proof.
  revert l. induction fs as [|file fs IH]; intros l; simpl.
  - intros [= <-] f Hf. by apply elem_of_nil in Hf.
  - destruct (vault_read v file) as [c|] eqn:Hc; [|done].
    destruct (select_publishable v fs) as [rest|]; [|done].
    intros [= <-] f Hf. specialize (IH _ eq_refl).
    destruct (shouldPublish c) eqn:Hpub.
    + apply elem_of_cons in Hf as [->|Hf].
      * split; [left|]. unfold publishable_in. by rewrite Hc.
      * destruct (IH f Hf). split; [by right | done].
    + destruct (IH f Hf). split; [by right | done].
Qed.

Section BatchEvents.
Context {X : Type} (host : Host X) {P : PathModule}.
Context (settings : GeneralPublishSettings).
Implicit Types (w : World X).

(** Every branch of the batch resolves, and its events are those of a
    batch over the vault it started with. *)
Lemma publishAllNotes_runs w :
  (publishAllNotes host settings w).1 = Ok ()
  ∧ runs (batch_event settings (vault w)) w (publishAllNotes host settings w).2.
Proof.
  rewrite publishAllNotes_cases. case_bool_decide.
  { split; [done|]. eapply runs_idle; try done. by repeat constructor. }
  unfold getPublishableFiles. rewrite collectPublishable_select.
  destruct (select_publishable _ _) as [files|e] eqn:Hsel.
  2: { split; [done|]. eapply runs_idle; try done. by repeat constructor. }
  cbn zeta. case_bool_decide.
  { split; [done|]. eapply runs_idle; try done. by repeat constructor. }
  set (w0 := logged [Notice (publishing_notice (length files))] w).
  assert (runs (batch_event settings (vault w)) w w0) as Hstart
    by (eapply runs_idle; try done; by repeat constructor).
  assert (runs (batch_event settings (vault w)) w0
            (forEach (copyFileToRepo host settings) files w0).2) as Hloop.
  { apply (emits_forEach (vault w)); [|done]. intros file Hfile.
    eapply emits_weaken; [|apply emits_copyFileToRepo].
    destruct (select_publishable_sound _ _ _ Hsel file Hfile) as [Hmd Hpub].
    intros [] He; simpl in *; try done. by exists file. }
  destruct (forEach _ files w0) as [[[]|e] w2]; simpl in Hloop.
  2: { split; [done|]. eapply runs_trans; [exact Hstart|].
       eapply runs_trans; [exact Hloop|].
       eapply runs_idle; try done. by repeat constructor. }
  assert (vault w2 = vault w) as Hv2 by (destruct Hloop as [-> _]; done).
  destruct (autoCommit settings).
  - destruct (commitChanges_trace host settings w2) as (r & cmds & x & -> & _).
    assert (runs (batch_event settings (vault w)) w2 (after_exec w2 cmds x))
      as Hcommit.
    { eapply runs_idle; try done.
      clear. induction cmds; simpl; by constructor. }
    destruct r as [b|e]; (split; [done|]);
      (eapply runs_trans; [exact Hstart|]); (eapply runs_trans; [exact Hloop|]);
      (eapply runs_trans; [exact Hcommit|]);
      (eapply runs_idle; try done; by repeat constructor).
  - split; [done|]. eapply runs_trans; [exact Hstart|].
    eapply runs_trans; [exact Hloop|].
    eapply runs_idle; try done. by repeat constructor.
Qed.

(** X2: [publishAllNotes] always resolves, whatever its collaborators
    reject: a failure ends in a notice.  It never changes the vault. *)
Theorem publishAllNotes_resolves_keeps_vault w :
  let r := publishAllNotes host settings w in
  r.1 = Ok ()
  ∧ vault r.2 = vault w
  ∧ ∃ evs, trace r.2 = trace w ++ evs ∧ Forall keeps_vault evs.
Proof.
  intros r. destruct (publishAllNotes_runs w) as (Hok & Hv & evs & Ht & Hq & _).
  split; [done|]. split; [done|]. exists evs. split; [done|].
  eapply Forall_impl; [exact Hq|]. by intros [].
Qed.

(** X14: whatever a batch writes comes from a markdown file of the
    vault that carries the flag: it is the text of that file, at the
    target of that file, or the bytes of a file of the vault that one of
    the image names of that file resolves to, at the target of the
    resolved file.  The resolved file is any file of the vault, with or
    without the flag: only as such an image does a file without the flag
    reach the target tree. *)
Theorem publishAllNotes_write_sources w (p data : string) :
  let r := publishAllNotes host settings w in
  FsWriteFile p data ∈ drop (length (trace w)) (trace r.2) →
  ∃ file,
    file ∈ getMarkdownFiles (vault w)
    ∧ publishable_in (vault w) file = true
    ∧ ((p = docTarget settings file
        ∧ vault_read (vault w) file = Some data)
       ∨ ∃ content imageName a,
           vault_read (vault w) file = Some content
           ∧ imageName ∈ imageNames content
           ∧ a ∈ getFiles (vault w)
           ∧ resolveImage (vault w) imageName = Some a
           ∧ p = assetTarget settings a
           ∧ vault_read (vault w) a = Some data).
Proof.
  intros r. destruct (publishAllNotes_runs w) as (_ & _ & evs & Ht & Hq & _).
  fold r in Ht. rewrite Ht, drop_app_length. intros Hin.
  rewrite Forall_forall in Hq. apply Hq in Hin.
  destruct Hin as (file & Hmd & Hpub & [Hdoc|Hasset]).
  - exists file. split; [done|]. split; [done|]. by left.
  - destruct Hasset as (content & imageName & a & Hc & Hn & Hres & Hp & Ha).
    exists file. split; [done|]. split; [done|]. right.
    exists content, imageName, a. repeat split; try done.
    by eapply resolveImage_in_vault.
Qed.

End BatchEvents.

(** What the batch over the sample vault writes to [content/b.md] is the
    text of a flagged note. *)
Lemma publishAllNotes_write_sources_witness :
  let P := posix "/home/u" in
  let w := Sample.start Sample.corpus (∅ : gmap string string) in
  ∃ file,
    file ∈ getMarkdownFiles (vault w)
    ∧ publishable_in (vault w) file = true
    ∧ (("/srv/site/content/b.md" = docTarget Sample.settings file
        ∧ vault_read (vault w) file = Some Sample.b_text)
       ∨ ∃ content imageName a,
           vault_read (vault w) file = Some content
           ∧ imageName ∈ imageNames content
           ∧ a ∈ getFiles (vault w)
           ∧ resolveImage (vault w) imageName = Some a
           ∧ "/srv/site/content/b.md" = assetTarget Sample.settings a
           ∧ vault_read (vault w) a = Some Sample.b_text).
Proof.
  intros P w.
  apply (publishAllNotes_write_sources Sample.git_host Sample.settings w).
  apply (bool_decide_unpack _). vm_compute. exact I.
Defined.

Lemma last_write_Some (p data : string) (evs : list Event) :
  FsWriteFile p data ∈ evs → is_Some (last_write p evs).
Proof.
  induction evs as [|e evs IH]; intros Hin; [by apply elem_of_nil in Hin|].
  simpl. apply elem_of_cons in Hin as [<-|Hin].
  - destruct (last_write p evs); [by eexists|].
    rewrite bool_decide_eq_true_2 by done. by eexists.
  - destruct (IH Hin) as [x ->]. by eexists.
Qed.

Section BatchComplete.
Context {X : Type} (host : Host X) {P : PathModule}.
Context (settings : GeneralPublishSettings).
Context (Hfs : fs_accepts host).
Implicit Types (w : World X).

(** X13: where the file system rejects nothing and the root is an
    absolute path, a batch writes every note it selected: the text of
    each is written to its target, and after the run the target tree
    holds a file there, whether or not the commit step succeeds. *)
Theorem publishAllNotes_mirrors_selected w (publishableFiles : list TFile)
    (file : TFile) :
  gitRepoPath settings ≠ "" →
  isAbsolute (gitRepoPath settings) = true →
  (getPublishableFiles w).1 = Ok publishableFiles →
  file ∈ publishableFiles →
  let r := publishAllNotes host settings w in
  ∃ text,
    vault_read (vault w) file = Some text
    ∧ FsWriteFile (docTarget settings file) text ∈ trace r.2
    ∧ is_Some (files (disk r.2) !! docTarget settings file).
Proof.
  intros Hroot Habs Hsel Hfile r.
  unfold getPublishableFiles in Hsel.
  rewrite collectPublishable_select in Hsel. simpl in Hsel.
  pose proof (select_publishable_readable _ _ _ Hsel) as Hreadable.
  pose proof Hreadable as Hall. rewrite Forall_forall in Hall.
  destruct (Hall file Hfile) as [text Htext].
  set (plan := mjoin (file_events settings (vault w) <$> publishableFiles)).
  assert (FsWriteFile (docTarget settings file) text ∈ plan) as Hplan.
  { apply list_elem_of_join. exists (file_events settings (vault w) file).
    split.
    - unfold file_events. rewrite Htext. right. left.
    - apply list_elem_of_fmap. by exists file. }
  set (n := length publishableFiles).
  set (w0 := logged [Notice (publishing_notice n)] w).
  assert (∃ x tail,
    r = (Ok (), mkWorld (vault w) (foldl apply_fs (disk w) plan) x
                  (trace w ++ Notice (publishing_notice n) :: plan ++ tail)))
    as (x & tail & Hr).
  { unfold r. rewrite publishAllNotes_cases.
    rewrite bool_decide_eq_false_2 by done.
    unfold getPublishableFiles. rewrite collectPublishable_select, Hsel.
    cbn zeta. rewrite bool_decide_eq_false_2
      by (destruct publishableFiles; [by apply elem_of_nil in Hfile | done]).
    fold n w0 plan.
    rewrite (forEach_copyFileToRepo_accepting host settings Hfs
               publishableFiles w0 Habs Hreadable).
    fold plan.
    destruct (autoCommit settings).
    - match goal with
      | |- context [commitChanges host settings ?w2] =>
          destruct (commitChanges_trace host settings w2)
            as (res & cmds & x & -> & _)
      end.
      destruct res as [b|e]; eexists x, _;
        unfold logged, after_exec, mirrored, w0; simpl;
        rewrite <- !app_assoc; simpl; reflexivity.
    - eexists (ext w), _. unfold logged, mirrored, w0. simpl.
      rewrite <- !app_assoc. simpl. reflexivity. }
  rewrite Hr. simpl. exists text. split; [done|]. split.
  - apply elem_of_app. right. right. apply elem_of_app. by left.
  - rewrite foldl_apply_fs_files.
    by destruct (last_write_Some _ _ _ Hplan) as [d ->].
Qed.

End BatchComplete.

(** The batch over the sample vault writes [b.md], the second of its two
    flagged notes, even in a repository where git refuses to commit. *)
Lemma publishAllNotes_mirrors_selected_witness :
  let P := posix "/home/u" in
  let host := Sample.rejecting_host "fatal: not a git repository" in
  let w := Sample.start Sample.corpus () in
  let r := publishAllNotes host Sample.settings w in
  ∃ text,
    vault_read (vault w) Sample.b_md = Some text
    ∧ FsWriteFile (docTarget Sample.settings Sample.b_md) text ∈ trace r.2
    ∧ is_Some (files (disk r.2) !! docTarget Sample.settings Sample.b_md).
Proof.
  intros P host w.
  apply (publishAllNotes_mirrors_selected host Sample.settings)
    with (publishableFiles := [Sample.a_md; Sample.b_md]).
  - by intros op x.
  - done.
  - reflexivity.
  - reflexivity.
  - right. left.
Defined.

(** ** The current note *)

Lemma vault_read_modify (v : Vault) (f : TFile) (c new : string) :
  vault_read v f = Some c → vault_read (vault_modify v f new) f = Some new.
Proof.
  unfold vault_read, getAbstractFileByPath, vault_modify.
  induction v as [|e v IH]; simpl; [done|].
  case_bool_decide as Hpath.
  - destruct e as [g old|p]; simpl in *; [|discriminate]. intros _.
    rewrite (bool_decide_eq_true_2 (path g = path f)) by done. simpl.
    by rewrite bool_decide_eq_true_2.
  - intros Hread.
    assert (entry_path
              match e with
              | EFile g old =>
                  if bool_decide (path g = path f) then EFile g new else e
              | EFolder _ => e
              end = entry_path e) as Hsame.
    { destruct e as [g old|p]; [|done]. simpl in *.
      by rewrite (bool_decide_eq_false_2 (path g = path f)). }
    rewrite Hsame, bool_decide_eq_false_2 by done. by apply IH.
Qed.

Section CurrentNote.
Context {X : Type} (host : Host X) {P : PathModule}.
Context (settings : GeneralPublishSettings).
Implicit Types (w : World X).

Lemma emits_commitChanges (v : Vault) (Q : Event → Prop) :
  (∀ cmd, Q (Exec cmd)) → emits v Q (commitChanges host settings).
Proof.
  intros HQ w _.
  destruct (commitChanges_trace host settings w) as (r & cmds & x & -> & _).
  eapply runs_idle; try done. clear -HQ.
  induction cmds; simpl; by constructor.
Qed.

Lemma emits_mirrorAndCommit (v : Vault) (file : TFile) :
  emits v (note_event settings v file) (mirrorAndCommit host settings file).
Proof.
  unfold mirrorAndCommit. apply emits_bind.
  { eapply emits_weaken; [|apply emits_copyFileToRepo]. by intros []. }
  intros _. apply emits_bind.
  { destruct (autoCommit settings);
      [by apply emits_commitChanges | apply emits_ret]. }
  intros b. destruct (b || negb (autoCommit settings));
    [by apply emits_emit | apply emits_ret].
Qed.

(** [publishCurrentNote] on an active note, by what the vault holds for
    it and by the answer of the dialog. *)
Lemma publishCurrentNote_cases (file : TFile) (confirmed : bool) w :
  gitRepoPath settings ≠ "" →
  publishCurrentNote host settings (Some file) confirmed w =
  match vault_read (vault w) file with
  | None => (Ok (), logged (note_error ("File not found: " +:+ path file)) w)
  | Some content =>
      if shouldPublish content || confirmed
      then
        let w1 :=
          if shouldPublish content then w
          else
            mkWorld (vault_modify (vault w) file (addPublishFlagText content))
                    (disk w) (ext w)
                    (trace w ++ [VaultModify (path file)
                                   (addPublishFlagText content);
                                 Notice added_notice]) in
        match mirrorAndCommit host settings file w1 with
        | (Ok _, w2) => (Ok (), w2)
        | (Throw e, w2) => (Ok (), logged (note_error e) w2)
        end
      else (Ok (), w)
  end.
Proof.
  intros Hroot. unfold publishCurrentNote.
  rewrite bool_decide_eq_false_2 by done.
  unfold try_catch. unfold mbind at 1, M_bind at 1, shouldPublishFile.
  unfold mbind at 1, M_bind at 1, read.
  destruct (vault_read (vault w) file) as [content|] eqn:Hread.
  2: { unfold logged, note_error, mbind, M_bind, notice, emit. simpl.
       by rewrite <- app_assoc. }
  cbn [mret M_ret].
  assert (Hhandler : ∀ e (w0 : World X),
    (notice ("Error publishing note: " +:+ e);;
     emit (ConsoleError "Publish error:" e)) w0
    = (Ok (), logged (note_error e) w0)).
  { intros e w0. unfold logged, note_error, mbind, M_bind, notice, emit. simpl.
    by rewrite <- app_assoc. }
  destruct (shouldPublish content) eqn:Hflag; cbn [negb orb].
  - unfold mbind at 1, M_bind at 1. cbn [mret M_ret negb].
    fold (mirrorAndCommit host settings file).
    destruct (mirrorAndCommit host settings file w) as [[[]|e] w2];
      [done | apply Hhandler].
  - destruct confirmed; cbn zeta.
    + unfold mbind at 1, M_bind at 1.
      unfold mbind at 1, M_bind at 1, addPublishFlag.
      unfold mbind at 1, M_bind at 1, read. rewrite Hread.
      unfold modify. unfold mbind at 1, M_bind at 1, notice at 1, emit at 1.
      cbn [vault disk ext trace mret M_ret negb].
      rewrite <- app_assoc. cbn [app].
      fold added_notice. fold (mirrorAndCommit host settings file).
      match goal with
      | |- context [mirrorAndCommit host settings file ?w1] =>
          destruct (mirrorAndCommit host settings file w1) as [[[]|e] w2]
      end; [done | apply Hhandler].
    + done.
Qed.

(** X10: for a dialog that has answered.  When the active note carries
    the flag, or the answer is to cancel, [publishCurrentNote] leaves
    the vault as it is, and whatever it writes is the text of the note
    or one of its images.  For a note that carries the flag the answer
    plays no part: the dialog is not opened. *)
Theorem publishCurrentNote_keeps_vault (activeFile : option TFile)
    (confirmed : bool) w :
  (confirmed = false
   ∨ ∃ file content, activeFile = Some file
                     ∧ vault_read (vault w) file = Some content
                     ∧ shouldPublish content = true) →
  let r := publishCurrentNote host settings activeFile confirmed w in
  vault r.2 = vault w
  ∧ (∃ evs, trace r.2 = trace w ++ evs
            ∧ ∀ file, activeFile = Some file →
                      Forall (note_event settings (vault w) file) evs)
  ∧ (∀ file content,
       activeFile = Some file →
       vault_read (vault w) file = Some content →
       shouldPublish content = true →
       publishCurrentNote host settings activeFile true w
       = publishCurrentNote host settings activeFile false w).
Proof.
  intros Hcase r. subst r. destruct activeFile as [file|].
  2: { split; [done|]. split; [|by intros ? ? [=]].
       exists [Notice "No active file"]. split; [done|]. by intros file [=]. }
  destruct (decide (gitRepoPath settings = "")) as [Hroot|Hroot].
  { unfold publishCurrentNote. rewrite !bool_decide_eq_true_2 by done.
    split; [done|]. split; [|done]. eexists. split; [done|].
    intros f _. by repeat constructor. }
  rewrite !publishCurrentNote_cases by done.
  destruct (vault_read (vault w) file) as [content|] eqn:Hread.
  2: { split; [done|]. split; [|done]. eexists. split; [done|].
       intros f _. by repeat constructor. }
  destruct (shouldPublish content) eqn:Hflag; cbn [orb].
  - cbn zeta.
    pose proof (emits_mirrorAndCommit (vault w) file w eq_refl)
      as (Hv & evs & Ht & Hq & _).
    destruct (mirrorAndCommit host settings file w) as [[[]|e] w2];
      simpl in *.
    + split; [done|]. split; [|done]. exists evs.
      split; [done|]. by intros f [= <-].
    + split; [done|]. split; [|done]. exists (evs ++ note_error e).
      split; [by rewrite Ht, app_assoc|]. intros f [= <-].
      apply Forall_app. split; [done | by repeat constructor].
  - destruct Hcase as [->|(f & c & [= <-] & Hc & Hf)]; [|congruence].
    split; [done|]. split.
    + exists []. split; [by rewrite app_nil_r|]. intros f _. constructor.
    + intros f c [= <-] Hc Hf. congruence.
Qed.

(** X9: when the dialog is confirmed for a note without the flag, the
    note is rewritten first, whatever happens afterwards, and what is
    mirrored is the rewritten text: every write that follows carries
    what the vault then holds for the note or for one of its images. *)
Theorem publishCurrentNote_mirrors_flagged_text (file : TFile)
    (content : string) w :
  gitRepoPath settings ≠ "" →
  vault_read (vault w) file = Some content →
  shouldPublish content = false →
  let r := publishCurrentNote host settings (Some file) true w in
  let flagged := addPublishFlagText content in
  vault r.2 = vault_modify (vault w) file flagged
  ∧ vault_read (vault r.2) file = Some flagged
  ∧ ∃ evs,
      trace r.2 = trace w ++ VaultModify (path file) flagged
                            :: Notice added_notice :: evs
      ∧ Forall (note_event settings (vault r.2) file) evs.
Proof.
  intros Hroot Hread Hflag r flagged. subst r.
  rewrite publishCurrentNote_cases by done. rewrite Hread, Hflag.
  cbn [orb]. cbn zeta. fold flagged.
  set (w1 := mkWorld (vault_modify (vault w) file flagged) (disk w) (ext w)
               (trace w ++ [VaultModify (path file) flagged;
                            Notice added_notice])).
  pose proof (emits_mirrorAndCommit (vault w1) file w1 eq_refl)
    as (Hv & evs & Ht & Hq & _).
  assert (vault_read (vault w1) file = Some flagged) as Hnew
    by (by eapply vault_read_modify).
  destruct (mirrorAndCommit host settings file w1) as [[[]|e] w2];
    simpl in Hv, Ht |- *; rewrite Hv.
  - split; [done|]. split; [done|]. exists evs.
    split; [by rewrite Ht, <- app_assoc | done].
  - split; [done|]. split; [done|]. exists (evs ++ note_error e).
    split; [by rewrite Ht, <- !app_assoc|].
    apply Forall_app. split; [done | by repeat constructor].
Qed.

End CurrentNote.

(** The first note of the sample vault carries the flag: publishing it
    leaves the vault as it is, whatever the dialog would have answered. *)
Lemma publishCurrentNote_keeps_vault_witness :
  let P := posix "/home/u" in
  let w := Sample.start Sample.corpus (∅ : gmap string string) in
  let r := publishCurrentNote Sample.git_host Sample.settings
             (Some Sample.a_md) true w in
  vault r.2 = vault w
  ∧ (∃ evs, trace r.2 = trace w ++ evs
            ∧ ∀ file, Some Sample.a_md = Some file →
                      Forall (note_event Sample.settings (vault w) file) evs)
  ∧ (∀ file content,
       Some Sample.a_md = Some file →
       vault_read (vault w) file = Some content →
       shouldPublish content = true →
       publishCurrentNote Sample.git_host Sample.settings
         (Some Sample.a_md) true w
       = publishCurrentNote Sample.git_host Sample.settings
           (Some Sample.a_md) false w).
Proof.
  intros P w.
  apply (publishCurrentNote_keeps_vault Sample.git_host Sample.settings
           (Some Sample.a_md) true w).
  right. exists Sample.a_md, Sample.a_text. by vm_compute.
Defined.

(** The draft of the sample vault has no frontmatter: confirmed, it gets
    a minimal block and is mirrored with it. *)
Lemma publishCurrentNote_mirrors_flagged_text_witness :
  let P := posix "/home/u" in
  let w := Sample.start Sample.corpus (∅ : gmap string string) in
  let r := publishCurrentNote Sample.git_host Sample.settings
             (Some Sample.draft_md) true w in
  let flagged := addPublishFlagText Sample.draft_text in
  vault r.2 = vault_modify (vault w) Sample.draft_md flagged
  ∧ vault_read (vault r.2) Sample.draft_md = Some flagged
  ∧ ∃ evs,
      trace r.2 = trace w ++ VaultModify (path Sample.draft_md) flagged
                            :: Notice added_notice :: evs
      ∧ Forall (note_event Sample.settings (vault r.2) Sample.draft_md) evs.
Proof.
  intros P w.
  apply (publishCurrentNote_mirrors_flagged_text Sample.git_host
           Sample.settings Sample.draft_md Sample.draft_text w);
    [done | reflexivity | reflexivity].
Defined.

(** ** The commit message *)

Lemma find_literal_here (d s r : string) :
  Js.strip_prefix d s = Some r → Js.find_literal d s = Some ("", r).
Proof. intros H. destruct s; cbn [Js.find_literal]; by rewrite H. Qed.

Lemma find_literal_fresh (tok pre post : string) (c0 : ascii) (tok' : string) :
  tok = String c0 tok' → has_char c0 pre = false →
  Js.find_literal tok (pre +:+ tok +:+ post) = Some (pre, post).
Proof.
  intros -> Hpre. induction pre as [|c pre IH].
  - change ("" +:+ String c0 tok' +:+ post) with (String c0 tok' +:+ post).
    apply find_literal_here, strip_prefix_app.
  - simpl in Hpre. apply orb_false_iff in Hpre as [Hc Hpre].
    change (String c pre +:+ String c0 tok' +:+ post)
      with (String c (pre +:+ String c0 tok' +:+ post)).
    rewrite find_literal_cons, strip_prefix_head, IH; [done | done |].
    intros <-. by rewrite Ascii.eqb_refl in Hc.
Qed.

(** X16: in the commit message the first [{timestamp}] of the template
    is replaced by the instant and nothing else is touched: a second
    [{timestamp}] further on stays as it is written. *)
Theorem commit_message_first_timestamp {X} (host : Host X)
    (settings : GeneralPublishSettings) (x : X) (pre post : string) :
  commitMessage settings = pre +:+ "{timestamp}" +:+ post →
  has_char "{" pre = false →
  has_char "$" (h_now host x) = false →
  message_at host settings x = pre +:+ h_now host x +:+ post.
Proof.
  intros Htemplate Hpre Hplain. unfold message_at, Js.replace_string.
  rewrite Htemplate.
  rewrite (find_literal_fresh "{timestamp}" pre post "{" "timestamp}")
    by done.
  by rewrite getSubstitution_plain.
Qed.

Lemma commit_message_first_timestamp_witness :
  message_at Sample.git_host
    (mkSettings "/srv/site" "content" "assets"
                ("Notes " +:+ "{timestamp}" +:+ " ({timestamp})") true)
    (∅ : gmap string string)
  = "Notes " +:+ Sample.stamp +:+ " ({timestamp})".
Proof.
  by apply (commit_message_first_timestamp Sample.git_host _ ∅
              "Notes " " ({timestamp})").
Defined.

(** ** Resolution by path *)

Lemma getAbstractFileByPath_wf (v : Vault) (e : Entry) :
  vault_wf v → e ∈ v → getAbstractFileByPath v (entry_path e) = Some e.
Proof.
  unfold vault_wf, getAbstractFileByPath.
  induction v as [|e0 v IH]; simpl; intros Hwf Hin.
  - by apply elem_of_nil in Hin.
  - apply NoDup_cons in Hwf as [Hfresh Hwf].
    apply elem_of_cons in Hin as [<-|Hin].
    + by rewrite bool_decide_eq_true_2.
    + rewrite bool_decide_eq_false_2; [by apply IH|].
      intros Heq. apply Hfresh. rewrite Heq.
      apply list_elem_of_fmap. by exists e.
Qed.

(** X17: in a well-formed vault an image referenced by its full path
    resolves to the file at that path, also when files listed before it
    have the same filename. *)
Theorem resolveImage_by_path (v : Vault) (f : TFile) :
  vault_wf v → f ∈ getFiles v → resolveImage v (path f) = Some f.
Proof.
  intros Hwf [c Hin]%getFiles_entry. unfold resolveImage.
  change (path f) with (entry_path (EFile f c)).
  by rewrite getAbstractFileByPath_wf.
Qed.

(** [old/diagram.png] is listed after [img/diagram.png]. *)
Lemma resolveImage_by_path_witness :
  resolveImage Sample.corpus "old/diagram.png" = Some Sample.pic2.
Proof.
  apply (resolveImage_by_path Sample.corpus Sample.pic2).
  - apply (bool_decide_unpack (NoDup (entry_path <$> Sample.corpus))).
    vm_compute. exact I.
  - apply (bool_decide_unpack (Sample.pic2 ∈ getFiles Sample.corpus)).
    vm_compute. exact I.
Defined.

(** ** A batch that changes the tree *)

Section BatchCommits.
Context {X : Type} (host : Host X) {P : PathModule}.
Context (settings : GeneralPublishSettings).
Context (Hfs : fs_accepts host) (Hgit : git_like host settings).
Implicit Types (w : World X).

(** X18: where nothing is rejected and the status query reports a change
    for the mirrored tree, a batch with auto-commit on runs the status
    query and then the staging and committing command, once, with the
    message of the instant, and ends with the notice of success that
    counts the notes. *)
Theorem publishAllNotes_commits_once w (publishableFiles : list TFile) :
  autoCommit settings = true →
  gitRepoPath settings ≠ "" →
  isAbsolute (gitRepoPath settings) = true →
  (getPublishableFiles w).1 = Ok publishableFiles →
  publishableFiles ≠ [] →
  status_blank host settings
    (foldl apply_fs (disk w) (batch_plan settings (vault w))) (ext w) = false →
  let r := publishAllNotes host settings w in
  ∃ evs,
    trace r.2 = trace w ++ evs
    ∧ exec_calls evs
      = [statusCommand settings;
         gitCommands settings (message_at host settings (ext w))]
    ∧ last evs = Some (Notice (publishedNotice (length publishableFiles))).
Proof.
  intros Hauto Hroot Habs Hsel Hne Hdirty r. subst r.
  unfold getPublishableFiles in Hsel.
  rewrite collectPublishable_select in Hsel. simpl in Hsel.
  unfold batch_plan in Hdirty.
  rewrite bool_decide_eq_false_2, Hsel, Habs in Hdirty by done.
  set (plan := mjoin (file_events settings (vault w) <$> publishableFiles))
    in *.
  set (n := length publishableFiles).
  set (w0 := logged [Notice (publishing_notice n)] w).
  rewrite publishAllNotes_cases. rewrite bool_decide_eq_false_2 by done.
  unfold getPublishableFiles. rewrite collectPublishable_select, Hsel.
  cbn zeta. rewrite bool_decide_eq_false_2 by (by destruct publishableFiles).
  fold n w0.
  rewrite (forEach_copyFileToRepo_accepting host settings Hfs
             publishableFiles w0 Habs
             (select_publishable_readable _ _ _ Hsel)).
  change (mjoin (file_events settings (vault w0) <$> publishableFiles))
    with plan.
  rewrite Hauto, commitChanges_cases.
  destruct Hgit as [Hstatus Hcommit].
  unfold status_blank in Hdirty.
  change (disk (mirrored plan w0)) with (foldl apply_fs (disk w) plan).
  change (ext (mirrored plan w0)) with (ext w).
  destruct (Hstatus (foldl apply_fs (disk w) plan) (ext w)) as [out Hout].
  rewrite Hout in Hdirty |- *. rewrite Hdirty. cbn zeta.
  destruct (Hcommit (message_at host settings (ext w))
              (foldl apply_fs (disk w) plan) (ext w))
    as (out2 & x' & Hrun & _).
  { unfold status_blank. by rewrite Hout. }
  rewrite Hrun.
  exists (Notice (publishing_notice n) :: plan
          ++ [Exec (statusCommand settings);
              Exec (gitCommands settings (message_at host settings (ext w)));
              Notice (publishedNotice n)]).
  assert (exec_calls plan = []) as Hplan
    by (apply exec_calls_mjoin; apply file_events_no_exec).
  split; [|split].
  - unfold logged, after_exec, mirrored, w0. simpl.
    by rewrite <- !app_assoc.
  - simpl. by rewrite exec_calls_app, Hplan.
  - change [Exec (statusCommand settings);
            Exec (gitCommands settings (message_at host settings (ext w)));
            Notice (publishedNotice n)]
      with ([Exec (statusCommand settings);
             Exec (gitCommands settings (message_at host settings (ext w)))]
            ++ [Notice (publishedNotice n)]).
    rewrite app_comm_cons, app_assoc. apply last_snoc.
Qed.

End BatchCommits.

(** The first batch into an empty tree: one commit. *)
Lemma publishAllNotes_commits_once_witness :
  let P := posix "/home/u" in
  let w := Sample.start Sample.corpus (∅ : gmap string string) in
  let r := publishAllNotes Sample.git_host Sample.settings w in
  ∃ evs,
    trace r.2 = trace w ++ evs
    ∧ exec_calls evs
      = [statusCommand Sample.settings;
         gitCommands Sample.settings
           (message_at Sample.git_host Sample.settings ∅)]
    ∧ last evs = Some (Notice "Successfully published 2 notes").
Proof.
  intros P w.
  apply (publishAllNotes_commits_once Sample.git_host Sample.settings
           sample_fs_accepts sample_git_like w [Sample.a_md; Sample.b_md]);
    [reflexivity | done | reflexivity | reflexivity | done |].
  vm_compute. reflexivity.
Defined.

(** * Mirroring, byte for byte *)

Lemma imageNames_from_nonempty (fuel : nat) (s : string) :
  Forall (λ imageName, imageName ≠ "") (imageNames_from fuel s).
Proof.
  revert s. induction fuel as [|fuel IH]; intros s; simpl; [constructor|].
  destruct (match_ref_here s) as [[cap rest]|] eqn:E.
  - constructor; [by eapply match_ref_here_nonempty | apply IH].
  - destruct s; [constructor | apply IH].
Qed.

(** The last write to [p] is one of the writes to [p]. *)
Lemma last_write_elem (p data : string) (evs : list Event) :
  last_write p evs = Some data → FsWriteFile p data ∈ evs.
Proof.
  induction evs as [|e evs IH]; simpl; [done|].
  destruct (last_write p evs) as [d|].
  - intros [= ->]. right. by apply IH.
  - destruct e as [| | | |q d| |]; try done.
    case_bool_decide as Hq; [|done]. intros [= ->]. subst q. left.
Qed.

Section Verbatim.
Context {X : Type} (host : Host X) {P : PathModule}.
Context (settings : GeneralPublishSettings).
Implicit Types (w : World X).

(** A successful [copyAssetToRepo] has read the bytes of the file,
    created the assets folder and written the bytes, and nothing else;
    the target tree then holds them. *)
Lemma copyAssetToRepo_ok_trace (a : TFile) w w' :
  copyAssetToRepo host settings a w = (Ok (), w') →
  ∃ bytes,
    vault_read (vault w) a = Some bytes
    ∧ trace w' = trace w ++ [FsMkdir (assetsDir settings);
                             FsWriteFile (assetTarget settings a) bytes]
    ∧ files (disk w') !! assetTarget settings a = Some bytes.
Proof.
  unfold copyAssetToRepo, readBinary.
  unfold mbind at 1, M_bind at 1, read.
  destruct (vault_read (vault w) a) as [bytes|]; [|done].
  unfold mbind at 1, M_bind at 1, mkdir.
  destruct (h_fs host (OpMkdir _) _) as [[e|] x1]; [done|].
  unfold writeFile. simpl.
  destruct (h_fs host (OpWriteFile _ _) _) as [[e|] x2]; [done|].
  intros [= <-]. simpl. exists bytes. split; [done|].
  split; [by rewrite <- app_assoc | apply lookup_insert_eq].
Qed.

(** One turn of the loop over the image names never throws, keeps the
    vault and adds to the trace. *)
Lemma copyReferencedAsset_turn (imageName : string) w :
  ∃ w' evs,
    copyReferencedAsset host settings imageName w = (Ok (), w')
    ∧ vault w' = vault w
    ∧ trace w' = trace w ++ evs.
Proof.
  unfold copyReferencedAsset. case_bool_decide.
  { exists w, []. by rewrite app_nil_r. }
  destruct (resolveImage (vault w) imageName) as [a|].
  2: { eexists _, _. by split. }
  unfold try_catch.
  destruct (emits_copyAssetToRepo host settings (vault w) a w eq_refl)
    as (Hv & evs & Ht & _).
  destruct (copyAssetToRepo host settings a w) as [[[]|e] w1]; simpl in *.
  - by exists w1, evs.
  - eexists _, (evs ++ [_]). split; [done|]. simpl.
    split; [done|]. by rewrite Ht, app_assoc.
Qed.

Lemma copyReferencedAssets_turns (names : list string) w :
  ∃ w' evs,
    forEach (copyReferencedAsset host settings) names w = (Ok (), w')
    ∧ vault w' = vault w
    ∧ trace w' = trace w ++ evs.
Proof.
  revert w. induction names as [|n names IH]; intros w; simpl.
  { exists w, []. by rewrite app_nil_r. }
  destruct (copyReferencedAsset_turn n w) as (w1 & evs1 & Hturn & Hv1 & Ht1).
  rewrite (bind_ok _ _ _ _ _ Hturn).
  destruct (IH w1) as (w2 & evs2 & Hrest & Hv2 & Ht2).
  exists w2, (evs1 ++ evs2). split; [done|].
  split; [congruence|]. by rewrite Ht2, Ht1, app_assoc.
Qed.

(** The turn for a name that resolves to a file the vault can read
    creates the assets folder, and then asks for the write of the bytes
    of that file or logs that the copy failed. *)
Lemma copyReferencedAsset_attempt (imageName : string) (a : TFile)
    (bytes : string) w :
  imageName ≠ "" →
  resolveImage (vault w) imageName = Some a →
  vault_read (vault w) a = Some bytes →
  ∃ evs,
    trace (copyReferencedAsset host settings imageName w).2 = trace w ++ evs
    ∧ FsMkdir (assetsDir settings) ∈ evs
    ∧ (FsWriteFile (assetTarget settings a) bytes ∈ evs
       ∨ ∃ e, ConsoleError ("Failed to copy asset " +:+ imageName +:+ ":") e
              ∈ evs).
Proof.
  intros Hne Hres Hread. unfold copyReferencedAsset.
  rewrite bool_decide_eq_false_2 by done. rewrite Hres.
  unfold try_catch, copyAssetToRepo, readBinary.
  unfold mbind at 1, M_bind at 1, read. rewrite Hread.
  unfold mbind at 1, M_bind at 1, mkdir.
  destruct (h_fs host (OpMkdir _) _) as [[e|] x1].
  { exists [FsMkdir (assetsDir settings);
            ConsoleError ("Failed to copy asset " +:+ imageName +:+ ":") e].
    simpl. split; [by rewrite <- app_assoc|]. split; [left|].
    right. exists e. right. left. }
  unfold writeFile. simpl.
  destruct (h_fs host (OpWriteFile _ _) _) as [[e|] x2]; simpl.
  - exists [FsMkdir (assetsDir settings);
            FsWriteFile (assetTarget settings a) bytes;
            ConsoleError ("Failed to copy asset " +:+ imageName +:+ ":") e].
    split; [by rewrite <- !app_assoc|]. split; [left|]. left. right. left.
  - exists [FsMkdir (assetsDir settings);
            FsWriteFile (assetTarget settings a) bytes].
    split; [by rewrite <- !app_assoc|]. split; [left|]. left. right. left.
Qed.

Lemma copyReferencedAssets_attempt (names : list string) (imageName : string)
    (a : TFile) (bytes : string) w :
  imageName ∈ names →
  imageName ≠ "" →
  resolveImage (vault w) imageName = Some a →
  vault_read (vault w) a = Some bytes →
  ∃ evs,
    trace (forEach (copyReferencedAsset host settings) names w).2
    = trace w ++ evs
    ∧ FsMkdir (assetsDir settings) ∈ evs
    ∧ (FsWriteFile (assetTarget settings a) bytes ∈ evs
       ∨ ∃ e, ConsoleError ("Failed to copy asset " +:+ imageName +:+ ":") e
              ∈ evs).
Proof.
  revert w. induction names as [|n names IH]; intros w Hin Hne Hres Hread;
    [by apply elem_of_nil in Hin|].
  simpl.
  destruct (copyReferencedAsset_turn n w) as (w1 & evs1 & Hturn & Hv1 & Ht1).
  rewrite (bind_ok _ _ _ _ _ Hturn).
  apply elem_of_cons in Hin as [->|Hin].
  - destruct (copyReferencedAsset_attempt n a bytes w Hne Hres Hread)
      as (evs & Ht & Hmk & Hwr).
    rewrite Hturn in Ht. simpl in Ht.
    destruct (copyReferencedAssets_turns names w1) as (w2 & evs2 & -> & _ & Ht2).
    exists (evs ++ evs2). simpl. split; [by rewrite Ht2, Ht, app_assoc|].
    split; [apply elem_of_app; by left|].
    destruct Hwr as [Hwr|[e He]]; [left | right; exists e];
      apply elem_of_app; by left.
  - rewrite <- Hv1 in Hres, Hread.
    destruct (IH w1 Hin Hne Hres Hread) as (evs & Ht & Hmk & Hwr).
    exists (evs1 ++ evs). split; [by rewrite Ht, Ht1, app_assoc|].
    split; [apply elem_of_app; by right|].
    destruct Hwr as [Hwr|[e He]]; [left | right; exists e];
      apply elem_of_app; by right.
Qed.

(** A successful [copyFileToRepo] has written the text of the file and
    then run the loop over the image names of that text. *)
Lemma copyFileToRepo_ok_assets (file : TFile) w w' :
  copyFileToRepo host settings file w = (Ok (), w') →
  ∃ text w2,
    vault_read (vault w) file = Some text
    ∧ vault w2 = vault w
    ∧ trace w2 = trace w ++ [FsMkdir (publishDir settings);
                             FsWriteFile (docTarget settings file) text]
    ∧ forEach (copyReferencedAsset host settings) (imageNames text) w2
      = (Ok (), w').
Proof.
  unfold copyFileToRepo, processContent.
  unfold mbind at 1, M_bind at 1, read.
  destruct (vault_read (vault w) file) as [text|] eqn:Hread; [|done].
  rewrite ret_bind.
  destruct (isAbsolute (gitRepoPath settings)) eqn:Habs; simpl; [|done].
  unfold mbind at 1, M_bind at 1, mkdir.
  destruct (h_fs host (OpMkdir _) _) as [[e|] x1]; [done|].
  unfold mbind at 1, M_bind at 1, writeFile. simpl.
  destruct (h_fs host (OpWriteFile _ _) _) as [[e|] x2]; [done|].
  intros Hrest. eexists text, _. split; [done|].
  split; [|split; [|exact Hrest]]; simpl; [done|]. by rewrite <- app_assoc.
Qed.

(** C6: mirroring copies byte for byte, the note and its images alike.
    [processContent] hands the content back as it is.  A successful
    [copyAssetToRepo] has written the bytes the vault holds for the
    file, and nothing else, to the path the filename gives under the
    assets folder, and the target tree then holds them.  Every write of
    [copyFileToRepo] carries the text of the note, to the path its
    filename gives under the publish folder, or the bytes of a file that
    one of its image references resolves to, to the path that file's
    name gives under the assets folder; a file of the target tree is as
    it was before or holds the data of such a write.  A successful call
    has written the text of the note, and for each image reference that
    resolves to a file the vault can read it has created the assets
    folder and asked for the write of the bytes of that file, or logged
    that the copy failed.  Where the file system accepts every call and
    the root is absolute, the call succeeds for every note the vault can
    read; its calls are then those of [file_events]; the bytes of every
    such image are written; and the target tree holds, at the target of
    the note and at the target of every such image, the data of a write
    to that path. *)
Theorem mirror_is_verbatim (file : TFile) w :
  let r := copyFileToRepo host settings file w in
  (∀ content f w0, processContent content f w0 = (Ok content, w0 : World X))
  ∧ (∀ a w0 w0',
       copyAssetToRepo host settings a w0 = (Ok (), w0') →
       ∃ bytes,
         vault_read (vault w0) a = Some bytes
         ∧ trace w0' = trace w0 ++ [FsMkdir (assetsDir settings);
                                    FsWriteFile (assetTarget settings a) bytes]
         ∧ files (disk w0') !! assetTarget settings a = Some bytes)
  ∧ ∃ evs,
      trace r.2 = trace w ++ evs
      ∧ (∀ p data, FsWriteFile p data ∈ evs →
           (p = docTarget settings file
            ∧ vault_read (vault w) file = Some data)
           ∨ ∃ content imageName a,
               vault_read (vault w) file = Some content
               ∧ imageName ∈ imageNames content
               ∧ resolveImage (vault w) imageName = Some a
               ∧ p = assetTarget settings a
               ∧ vault_read (vault w) a = Some data)
      ∧ (∀ p, files (disk r.2) !! p = files (disk w) !! p
              ∨ ∃ data, FsWriteFile p data ∈ evs
                        ∧ files (disk r.2) !! p = Some data)
      ∧ (r.1 = Ok () →
         ∃ text,
           vault_read (vault w) file = Some text
           ∧ FsWriteFile (docTarget settings file) text ∈ evs
           ∧ ∀ imageName a bytes,
               imageName ∈ imageNames text →
               resolveImage (vault w) imageName = Some a →
               vault_read (vault w) a = Some bytes →
               FsMkdir (assetsDir settings) ∈ evs
               ∧ (FsWriteFile (assetTarget settings a) bytes ∈ evs
                  ∨ ∃ e, ConsoleError
                           ("Failed to copy asset " +:+ imageName +:+ ":") e
                         ∈ evs))
      ∧ (fs_accepts host →
         isAbsolute (gitRepoPath settings) = true →
         ∀ text,
           vault_read (vault w) file = Some text →
           r.1 = Ok ()
           ∧ evs = file_events settings (vault w) file
           ∧ (∃ data, files (disk r.2) !! docTarget settings file = Some data
                      ∧ FsWriteFile (docTarget settings file) data ∈ evs)
           ∧ ∀ imageName a bytes,
               imageName ∈ imageNames text →
               resolveImage (vault w) imageName = Some a →
               vault_read (vault w) a = Some bytes →
               FsWriteFile (assetTarget settings a) bytes ∈ evs
               ∧ ∃ data,
                   files (disk r.2) !! assetTarget settings a = Some data
                   ∧ FsWriteFile (assetTarget settings a) data ∈ evs).
Proof.
  intros r. split; [done|]. split; [apply copyAssetToRepo_ok_trace|].
  destruct (emits_copyFileToRepo host settings (vault w) file w eq_refl)
    as (_ & evs & Ht & Hq & Hd).
  fold r in Ht, Hd. exists evs.
  split; [done|]. split; [|split; [|split]].
  - intros p data Hin. rewrite Forall_forall in Hq. apply (Hq _ Hin).
  - by apply disk_steps_lookup.
  - intros Hok. destruct r as [res w'] eqn:Hr. simpl in *. subst res.
    apply copyFileToRepo_ok_assets in Hr as (text & w2 & Hread & Hv2 & Ht2 & Hloop).
    exists text. split; [done|].
    destruct (copyReferencedAssets_turns (imageNames text) w2)
      as (w3 & rest & Hloop' & _ & Ht3).
    rewrite Hloop in Hloop'. injection Hloop' as <-.
    assert (evs = [FsMkdir (publishDir settings);
                   FsWriteFile (docTarget settings file) text] ++ rest)
      as Hevs.
    { apply (app_inv_head (trace w)). by rewrite <- Ht, Ht3, Ht2, <- app_assoc. }
    split; [rewrite Hevs; right; left|].
    intros imageName a bytes Hin Hres Hbytes.
    assert (imageName ≠ "") as Hne.
    { pose proof (imageNames_from_nonempty (S (String.length text)) text)
        as Hall.
      rewrite Forall_forall in Hall. by apply Hall. }
    rewrite <- Hv2 in Hres, Hbytes.
    destruct (copyReferencedAssets_attempt (imageNames text) imageName a bytes
                w2 Hin Hne Hres Hbytes) as (evs' & Ht' & Hmk & Hwr).
    rewrite Hloop in Ht'. simpl in Ht'. rewrite Ht3 in Ht'.
    apply app_inv_head in Ht' as <-. rewrite Hevs.
    split; [apply elem_of_app; by right|].
    destruct Hwr as [Hwr|[e He]]; [left | right; exists e];
      apply elem_of_app; by right.
  - intros Hfs Habs text Hread.
    pose proof (copyFileToRepo_accepting host settings Hfs file w Habs) as Hrun.
    rewrite Hread in Hrun. fold r in Hrun.
    assert (evs = file_events settings (vault w) file) as Hevs.
    { apply (app_inv_head (trace w)). rewrite <- Ht. by rewrite Hrun. }
    split; [by rewrite Hrun|]. split; [done|].
    assert (∀ p data, FsWriteFile p data ∈ evs →
              ∃ data', files (disk r.2) !! p = Some data'
                       ∧ FsWriteFile p data' ∈ evs) as Hheld.
    { intros p data Hin. destruct (last_write_Some _ _ _ Hin) as [d Hd'].
      exists d. split; [|by apply last_write_elem].
      rewrite Hrun. simpl. rewrite foldl_apply_fs_files.
      by rewrite <- Hevs, Hd'. }
    split.
    { apply (Hheld _ text). rewrite Hevs. unfold file_events. rewrite Hread.
      right. left. }
    intros imageName a bytes Hin Hres Hbytes.
    assert (FsWriteFile (assetTarget settings a) bytes ∈ evs) as Hwr.
    { rewrite Hevs. unfold file_events. rewrite Hread.
      apply elem_of_app. right. apply list_elem_of_join.
      exists (asset_events settings (vault w) imageName). split.
      - unfold asset_events. rewrite bool_decide_eq_false_2.
        + rewrite Hres, Hbytes. right. left.
        + pose proof (imageNames_from_nonempty (S (String.length text)) text)
            as Hall.
          rewrite Forall_forall in Hall. by apply Hall.
      - apply list_elem_of_fmap. by exists imageName. }
    split; [done|]. by apply (Hheld _ bytes).
Qed.

End Verbatim.

(** The first note of the sample vault embeds [diagram.png]: mirrored
    into an empty tree, the note and the picture are written as the
    vault holds them, and the tree holds the picture. *)
Lemma mirror_is_verbatim_witness :
  let P := posix "/home/u" in
  let w := Sample.start Sample.corpus (∅ : gmap string string) in
  let r := copyFileToRepo Sample.git_host Sample.settings Sample.a_md w in
  ∃ evs,
    trace r.2 = trace w ++ evs
    ∧ r.1 = Ok ()
    ∧ evs = [FsMkdir "/srv/site/content";
             FsWriteFile "/srv/site/content/a.md" Sample.a_text;
             FsMkdir "/srv/site/assets";
             FsWriteFile "/srv/site/assets/diagram.png" "PNG-1"]
    ∧ FsWriteFile (assetTarget Sample.settings Sample.pic1) "PNG-1" ∈ evs
    ∧ ∃ data,
        files (disk r.2) !! assetTarget Sample.settings Sample.pic1 = Some data
        ∧ FsWriteFile (assetTarget Sample.settings Sample.pic1) data ∈ evs.
Proof.
  intros P w r.
  destruct (mirror_is_verbatim Sample.git_host Sample.settings Sample.a_md w)
    as (_ & _ & evs & Ht & _ & _ & _ & Hacc).
  destruct (Hacc sample_fs_accepts eq_refl Sample.a_text eq_refl)
    as (Hok & Hevs & _ & Himg).
  exists evs. split; [exact Ht|]. split; [exact Hok|].
  split; [rewrite Hevs; vm_compute; reflexivity|].
  apply (Himg "diagram.png" Sample.pic1 "PNG-1");
    [apply (bool_decide_unpack _); vm_compute; exact I
    | reflexivity | reflexivity].
Defined.
